(** * Heading estimation from NMEA RMC fixes: [RMC/rmc_heading.py]

    A shallow embedding of [haversine_heading] and [read_nmea_rmc].

    Numbers.  Python floats are idealised as the real numbers of the
    Standard Library: rounding, signed zeros, infinities and NaN are not
    modelled.  [math.sin], [math.cos], [math.radians], [math.degrees] and
    [math.atan2] are their mathematical counterparts, and [%] on floats is
    the floored remainder.

    Effects.  The local variables of [read_nmea_rmc] form the record
    [state]; one pass through the body of the [while] loop is a function
    from states to results, where a result is either the next state or an
    exception that leaves the loop.  The serial port and the clock are the
    list of lines read while the loop condition held, each with the value
    of [time.time() - start_time] at that pass.  [pynmea2.parse] is a
    parameter of the loop. *)

From Stdlib Require Import String Reals Lra Lia List Bool Arith Sorted.
Import ListNotations.
Open Scope R_scope.

(** ** The [math] functions used by the program *)

Definition radians (x : R) : R := x * (PI / 180).

Definition degrees (x : R) : R := x * (180 / PI).

(** [math.atan2 y x]: the angle of the point [(x, y)], in (-PI, PI]. *)
Definition atan2 (y x : R) : R :=
  if Rlt_dec 0 x then atan (y / x)
  else if Rlt_dec x 0 then
    if Rle_dec 0 y then atan (y / x) + PI else atan (y / x) - PI
  else if Rlt_dec 0 y then PI / 2
  else if Rlt_dec y 0 then - (PI / 2)
  else 0.

(** [x % y] on floats: the remainder of the floored division. *)
Definition float_rem (x y : R) : R := x - y * IZR (Zfloor (x / y)).

(** [sum(l)]: left to right, starting from 0. *)
Definition sum (l : list R) : R := fold_left Rplus l 0.

(** [len(l)] as a number. *)
Definition len {A : Type} (l : list A) : R := INR (length l).

(** [x > y] as a test. *)
Definition Rgtb (x y : R) : bool := if Rgt_dec x y then true else false.

(** Truth value of a float: every number but zero. *)
Definition truthy (x : R) : bool := if Req_dec_T x 0 then false else true.

(** ** [collections.deque(maxlen=n)] *)

(** [d.append(x)]: [x] goes to the right end; a deque that has grown past
    [maxlen] drops its leftmost item. *)
Definition deque_append {A : Type} (maxlen : nat) (d : list A) (x : A) : list A :=
  let d' := d ++ [x] in
  if (maxlen <? length d')%nat then tl d' else d'.

(** ** [haversine_heading] *)

Definition haversine_heading (lat1 lon1 lat2 lon2 : R) : R :=
  let lat1 := radians lat1 in
  let lon1 := radians lon1 in
  let lat2 := radians lat2 in
  let lon2 := radians lon2 in
  let delta_lon := lon2 - lon1 in
  let x := sin delta_lon * cos lat2 in
  let y := cos lat1 * sin lat2 - sin lat1 * cos lat2 * cos delta_lon in
  let heading := atan2 x y in
  let heading := degrees heading in
  float_rem (heading + 360) 360.

(** ** The state of [read_nmea_rmc] *)

Record state : Type := mkState {
  prev_lat : option R;
  prev_lon : option R;
  last_valid_heading : option R;
  last_speed : option R;
  speed_buffer : list R;
  calculated_headings : list R;
  reported_headings : list R;
  timestamps : list R;
  previous_fixes : list (R * R);
  first_heading_calculated : bool
}.

(** The values of the locals before the loop. *)
Definition init_state : state :=
  mkState None None None None [] [] [] [] [] false.

(** The values that one valid message yields (lines 45-49). *)
Record Fix : Type := mkFix {
  lat : R;
  lon : R;
  reported_heading : option R;
  speed_m_s : R;
  timestamp : R
}.

(** Line 53. *)
Definition avg_speed (buffer : list R) : R := sum buffer / len buffer.

(** Line 56. *)
Definition speed_diff (speed : R) (last : option R) : R :=
  match last with
  | Some last => Rabs (speed - last)
  | None => 0
  end.

(** Lines 69 and 70. *)
Definition avg_lat (fixes : list (R * R)) : R := sum (map fst fixes) / len fixes.

Definition avg_lon (fixes : list (R * R)) : R := sum (map snd fixes) / len fixes.

(** The condition of line 67. *)
Definition motion (st : state) (f : Fix) : bool :=
  Rgtb (speed_diff (speed_m_s f) (last_speed st)) 0.2
  || Rgtb (avg_speed (deque_append 5 (speed_buffer st) (speed_m_s f))) 0.2.

(** Lines 62-74: the heading and the flag after the [if]/[elif] chain, for a
    fix that has a predecessor at [(plat, plon)]. *)
Definition estimate (st : state) (f : Fix) (plat plon : R) : option R * bool :=
  if negb (first_heading_calculated st) then
    (Some (haversine_heading plat plon (lat f) (lon f)), true)
  else if motion st f then
    let fixes := deque_append 5 (previous_fixes st) (lat f, lon f) in
    (Some (haversine_heading (avg_lat fixes) (avg_lon fixes) (lat f) (lon f)),
     first_heading_calculated st)
  else
    (last_valid_heading st, first_heading_calculated st).

(** Lines 51-86: what the loop body does with the values of a valid
    message. *)
Definition process_fix (st : state) (f : Fix) : state :=
  let buffer := deque_append 5 (speed_buffer st) (speed_m_s f) in
  let fixes := deque_append 5 (previous_fixes st) (lat f, lon f) in
  match prev_lat st, prev_lon st with
  | Some plat, Some plon =>
      let (heading, first) := estimate st f plat plon in
      match heading, reported_heading f with
      | Some h, Some r =>
          mkState (Some (lat f)) (Some (lon f)) heading (Some (speed_m_s f))
            buffer
            (calculated_headings st ++ [radians h])
            (reported_headings st ++ [radians r])
            (timestamps st ++ [timestamp f])
            fixes first
      | _, _ =>
          mkState (Some (lat f)) (Some (lon f)) heading (Some (speed_m_s f))
            buffer (calculated_headings st) (reported_headings st)
            (timestamps st) fixes first
      end
  | _, _ =>
      mkState (Some (lat f)) (Some (lon f)) (last_valid_heading st)
        (Some (speed_m_s f)) buffer (calculated_headings st)
        (reported_headings st) (timestamps st) fixes
        (first_heading_calculated st)
  end.

(** The state after a sequence of valid fixes. *)
Definition run (st : state) (fs : list Fix) : state := fold_left process_fix fs st.

(** The samples stored so far: the three result lists, read in step. *)
Definition samples (st : state) : list (R * (R * R)) :=
  combine (timestamps st) (combine (calculated_headings st) (reported_headings st)).

(** ** Messages and the reading loop *)

(** The attributes of a parsed RMC sentence that the loop reads.  A numeric
    attribute of an empty field is [None]. *)
Record RMC : Type := mkRMC {
  status : string;
  latitude : R;
  longitude : R;
  true_course : option R;
  spd_over_grnd : option R
}.

(** [pynmea2.parse] returns a sentence or raises [pynmea2.ParseError]. *)
Inductive parsed : Type :=
| ParseError
| Sentence (msg : RMC).

(** Exceptions that are not [pynmea2.ParseError]. *)
Inductive exn : Type :=
| TypeError.

Inductive result (A : Type) : Type :=
| Ok (a : A)
| Raise (e : exn).

Arguments Ok {A} a.
Arguments Raise {A} e.

(** Line 47. *)
Definition reported_of (course : option R) : option R :=
  match course with
  | Some c => if truthy c then Some c else None
  | None => None
  end.

(** Lines 42-86, for a sentence that parsed at time [t].  A message whose
    status is not ['A'] is skipped; [None * 0.514444] raises. *)
Definition handle_message (st : state) (t : R) (msg : RMC) : result state :=
  if negb (status msg =? "A")%string then Ok st
  else
    let reported := reported_of (true_course msg) in
    match spd_over_grnd msg with
    | Some knots =>
        Ok (process_fix st
              (mkFix (latitude msg) (longitude msg) reported (knots * 0.514444) t))
    | None => Raise TypeError
    end.

(** One line from the port, decoded and stripped, and the clock at line 49. *)
Record read : Type := mkRead {
  clock : R;
  line : string
}.

(** Line 39. *)
Definition is_rmc (l : string) : bool :=
  prefix "$GNRMC" l || prefix "$GPRMC" l.

Section Loop.

Variable parse : string -> parsed.

(** Lines 38-89: one pass of the loop body. *)
Definition step (st : state) (rd : read) : result state :=
  if is_rmc (line rd) then
    match parse (line rd) with
    | Sentence msg => handle_message st (clock rd) msg
    | ParseError => Ok st
    end
  else Ok st.

(** The [while] loop over the lines read during the session. *)
Fixpoint loop (st : state) (reads : list read) : result state :=
  match reads with
  | [] => Ok st
  | rd :: rest =>
      match step st rd with
      | Ok st' => loop st' rest
      | Raise e => Raise e
      end
  end.

Definition read_nmea_rmc (reads : list read) : result (list R * list R * list R) :=
  match loop init_state reads with
  | Ok st => Ok (timestamps st, calculated_headings st, reported_headings st)
  | Raise e => Raise e
  end.

End Loop.

(** The value that [read_nmea_rmc] returns from a state. *)
Definition results (st : state) : list R * list R * list R :=
  (timestamps st, calculated_headings st, reported_headings st).

(** What holds of the locals at the top of every pass of the loop. *)
Record consistent (st : state) : Prop := mkConsistent {
  calculated_in_step : length (calculated_headings st) = length (timestamps st);
  reported_in_step : length (reported_headings st) = length (timestamps st);
  speeds_bounded : (length (speed_buffer st) <= 5)%nat;
  fixes_bounded : (length (previous_fixes st) <= 5)%nat;
  first_has_prev :
    first_heading_calculated st = true ->
    exists plat plon, prev_lat st = Some plat /\ prev_lon st = Some plon;
  first_has_heading :
    first_heading_calculated st = true -> exists h, last_valid_heading st = Some h
}.

(** ** Fixtures *)

(** Three fixes along the equator, one second apart. *)
Definition scenario : list Fix :=
  [ mkFix 0 0 None 0 0;
    mkFix 0 1 (Some 88) 0.05 1;
    mkFix 0 2 (Some 89) 0.05 2 ].

(** Two fixes along the equator, the second without a reported heading. *)
Definition silent_bootstrap : list Fix :=
  [ mkFix 0 0 None 0 0;
    mkFix 0 1 None 0 1 ].

(** A fast fix north of the first two. *)
Definition fast_fix : Fix := mkFix 1 (1 / 2) (Some 45) 10 2.

(** Two fixes along the equator, the first one fast. *)
Definition fast_start : list Fix :=
  [ mkFix 0 0 None 10 0;
    mkFix 0 1 None 0.05 1 ].

(** A slow fix north of the first two. *)
Definition slow_fix : Fix := mkFix 1 (1 / 2) None 0.05 2.

(** An RMC sentence with status 'A' and an empty speed field. *)
Definition no_speed_line : string :=
  "$GPRMC,123519,A,4807.038,N,01131.000,E,,084.4,230394,003.1,W".

Definition no_speed_msg : RMC :=
  mkRMC "A" (48 + 7.038 / 60) (11 + 31 / 60) (Some 84.4) None.

(** A parser that knows [no_speed_line] only. *)
Definition fixture_parse (l : string) : parsed :=
  if (l =? no_speed_line)%string then Sentence no_speed_msg else ParseError.

(** ** The fixes that a stream of lines yields *)

(** Lines 39-49: the values that a line yields.  [None] for a line that is
    skipped (not an RMC sentence, a parse error, a status other than 'A');
    an exception for a sentence whose speed field is empty. *)
Definition fix_of (parse : string -> parsed) (rd : read) : option (result Fix) :=
  if is_rmc (line rd) then
    match parse (line rd) with
    | Sentence msg =>
        if (status msg =? "A")%string then
          match spd_over_grnd msg with
          | Some knots =>
              Some (Ok (mkFix (latitude msg) (longitude msg)
                          (reported_of (true_course msg)) (knots * 0.514444)
                          (clock rd)))
          | None => Some (Raise TypeError)
          end
        else None
    | ParseError => None
    end
  else None.

(** The fixes of the lines up to the first exception. *)
Fixpoint fixes_of (parse : string -> parsed) (reads : list read) : result (list Fix) :=
  match reads with
  | [] => Ok []
  | rd :: rest =>
      match fix_of parse rd with
      | None => fixes_of parse rest
      | Some (Raise e) => Raise e
      | Some (Ok f) =>
          match fixes_of parse rest with
          | Ok fs => Ok (f :: fs)
          | Raise e => Raise e
          end
      end
  end.

(** Whether a line reaches the estimator or raises. *)
Definition counts (parse : string -> parsed) (rd : read) : bool :=
  match fix_of parse rd with
  | Some _ => true
  | None => false
  end.

(** Whether a fix reports a heading. *)
Definition has_reported (f : Fix) : bool :=
  match reported_heading f with
  | Some _ => true
  | None => false
  end.

(** ** [plot_headings_polar] *)



(** ** The port menu of [main] *)

(** [l[i]] on a list: a negative index counts from the end; [None] stands
    for [IndexError]. *)
Definition getitem {A : Type} (l : list A) (i : Z) : option A :=
  let n := Z.of_nat (length l) in
  let j := if (i <? 0)%Z then (i + n)%Z else i in
  if ((j <? 0) || (n <=? j))%Z then None else nth_error l (Z.to_nat j).

(** Lines 121 and 122: the numbers printed before the ports. *)
Definition menu (ports : list string) : list (Z * string) :=
  map (fun entry => ((Z.of_nat (fst entry) + 1)%Z, snd entry))
    (combine (seq 0 (length ports)) ports).

(** Lines 125 and 126, for the number typed by the user. *)
Definition select_port (ports : list string) (choice : Z) : option string :=
  let port_index := (choice - 1)%Z in
  getitem ports port_index.

(** A heading kept by the loop is a bearing, and the stored ones are its
    radians. *)
Record bearings (st : state) : Prop := mkBearings {
  heading_is_bearing :
    forall h, last_valid_heading st = Some h -> 0 <= h < 360;
  stored_are_bearings :
    Forall (fun c => 0 <= c < 2 * PI) (calculated_headings st)
}.

(** Two RMC sentences one degree of longitude apart on the equator, the
    first without a course. *)
Definition west_line : string :=
  "$GPRMC,120000,A,0000.000,N,00000.000,E,000.0,,230394,,".

Definition east_line : string :=
  "$GPRMC,120002,A,0000.000,N,00100.000,E,000.1,088.0,230394,,".

(** A parser that knows [west_line] and [east_line] only. *)
Definition session_parse (l : string) : parsed :=
  if (l =? west_line)%string then Sentence (mkRMC "A" 0 0 None (Some 0))
  else if (l =? east_line)%string then Sentence (mkRMC "A" 0 1 (Some 88) (Some 0.1))
  else ParseError.

(** A session of three lines, the second one not an RMC sentence. *)
Definition short_session : list read :=
  [mkRead 0 west_line; mkRead 1 "$GPGGA,120001"; mkRead 2 east_line].

(** * Properties *)

(** ** Arithmetic of the [math] functions *)

Lemma Rgtb_true (x y : R) : x > y -> Rgtb x y = true.
Proof. intros H. unfold Rgtb. destruct (Rgt_dec x y); [reflexivity | contradiction]. Qed.

Lemma Rgtb_false (x y : R) : x <= y -> Rgtb x y = false.
Proof. intros H. unfold Rgtb. destruct (Rgt_dec x y); [lra | reflexivity]. Qed.

Lemma Rgtb_spec (x y : R) : Rgtb x y = true <-> x > y.
Proof.
  unfold Rgtb. destruct (Rgt_dec x y); split; intros; try assumption;
    try reflexivity; try discriminate; contradiction.
Qed.

Lemma truthy_0 : truthy 0 = false.
Proof. unfold truthy. destruct (Req_dec_T 0 0); [reflexivity | lra]. Qed.

Lemma truthy_nonzero (x : R) : x <> 0 -> truthy x = true.
Proof. intros H. unfold truthy. destruct (Req_dec_T x 0); [contradiction | reflexivity]. Qed.

(** The floored remainder lies between zero and a positive divisor. *)
Lemma float_rem_bounds (x y : R) : 0 < y -> 0 <= float_rem x y < y.
Proof.
  intros Hy. unfold float_rem.
  pose proof (Zfloor_bound (x / y)) as [Hlo Hhi].
  assert (Hx : x = y * (x / y)) by (field; lra).
  split.
  - assert (y * IZR (Zfloor (x / y)) <= y * (x / y)) by (apply Rmult_le_compat_l; lra).
    lra.
  - assert (y * (x / y) < y * (IZR (Zfloor (x / y)) + 1)) by (apply Rmult_lt_compat_l; lra).
    lra.
Qed.

(** The remainder of [x] between [k * y] and [(k + 1) * y]. *)
Lemma float_rem_shift (k : Z) (x y : R) :
  0 < y -> IZR k * y <= x < (IZR k + 1) * y -> float_rem x y = x - IZR k * y.
Proof.
  intros Hy [Hlo Hhi]. unfold float_rem.
  assert (Hf : Zfloor (x / y) = k).
  { apply Zfloor_eq. split.
    - apply Rmult_le_reg_r with y; [assumption |].
      replace (x / y * y) with x by (field; lra). assumption.
    - apply Rmult_lt_reg_r with y; [assumption |].
      replace (x / y * y) with x by (field; lra). assumption. }
  rewrite Hf. ring.
Qed.

Lemma degrees_radians (x : R) : degrees (radians x) = x.
Proof. unfold degrees, radians. field. apply PI_neq0. Qed.

Lemma radians_0 : radians 0 = 0.
Proof. unfold radians. ring. Qed.

Lemma radians_pos (x : R) : 0 < x -> 0 < radians x.
Proof.
  intros H. unfold radians. apply Rmult_lt_0_compat; [assumption |].
  pose proof PI_RGT_0. apply Rdiv_lt_0_compat; lra.
Qed.

Lemma radians_lt_PI (x : R) : x < 180 -> radians x < PI.
Proof.
  intros H. unfold radians. pose proof PI_RGT_0 as HP.
  replace PI with (180 * (PI / 180)) at 2 by field.
  apply Rmult_lt_compat_r; [apply Rdiv_lt_0_compat; lra | assumption].
Qed.

(** [atan2] on the axes. *)
Lemma atan2_east (y : R) : 0 < y -> atan2 y 0 = PI / 2.
Proof.
  intros H. unfold atan2.
  destruct (Rlt_dec 0 0); [lra |].
  destruct (Rlt_dec 0 y); [reflexivity | contradiction].
Qed.

Lemma atan2_west (y : R) : y < 0 -> atan2 y 0 = - (PI / 2).
Proof.
  intros H. unfold atan2.
  destruct (Rlt_dec 0 0); [lra |].
  destruct (Rlt_dec 0 y); [lra |].
  destruct (Rlt_dec y 0); [reflexivity | contradiction].
Qed.

Lemma atan2_north (x : R) : 0 < x -> atan2 0 x = 0.
Proof.
  intros H. unfold atan2.
  destruct (Rlt_dec 0 x); [| contradiction].
  unfold Rdiv. rewrite Rmult_0_l. apply atan_0.
Qed.

(** [atan2] is an angle in (-PI, PI]. *)
Lemma atan2_range (y x : R) : - PI < atan2 y x <= PI.
Proof.
  pose proof PI_RGT_0 as HP. unfold atan2.
  destruct (Rlt_dec 0 x) as [Hx | Hx].
  - pose proof (atan_bound (y / x)). lra.
  - destruct (Rlt_dec x 0) as [Hx' | Hx'].
    + destruct (Rle_dec 0 y) as [Hy | Hy].
      * assert (y / x <= 0).
        { unfold Rdiv. assert (/ x < 0) by (apply Rinv_lt_0_compat; assumption). nra. }
        pose proof (atan_bound (y / x)).
        assert (atan (y / x) <= 0).
        { destruct (Req_dec (y / x) 0) as [E | E].
          - rewrite E, atan_0. lra.
          - rewrite <- atan_0. left. apply atan_increasing. lra. }
        lra.
      * assert (0 < y / x).
        { unfold Rdiv. assert (/ x < 0) by (apply Rinv_lt_0_compat; assumption). nra. }
        pose proof (atan_bound (y / x)).
        assert (0 < atan (y / x)) by (rewrite <- atan_0; apply atan_increasing; assumption).
        lra.
    + destruct (Rlt_dec 0 y); [lra |]. destruct (Rlt_dec y 0); lra.
Qed.

(** ** Bearings along the equator and along a meridian *)

Lemma haversine_heading_range (lat1 lon1 lat2 lon2 : R) :
  0 <= haversine_heading lat1 lon1 lat2 lon2 < 360.
Proof. unfold haversine_heading. apply float_rem_bounds. lra. Qed.

(** Due east on the equator is 90 degrees. *)
Lemma haversine_heading_east (lon1 lon2 : R) :
  0 < lon2 - lon1 < 180 -> haversine_heading 0 lon1 0 lon2 = 90.
Proof.
  intros [Hlo Hhi]. unfold haversine_heading. cbv zeta.
  rewrite radians_0, sin_0, cos_0.
  assert (Hd : radians lon2 - radians lon1 = radians (lon2 - lon1))
    by (unfold radians; ring).
  rewrite Hd.
  assert (Hs : 0 < sin (radians (lon2 - lon1)))
    by (apply sin_gt_0; [apply radians_pos | apply radians_lt_PI]; assumption).
  replace (1 * 0 - 0 * 1 * cos (radians (lon2 - lon1))) with 0 by ring.
  rewrite atan2_east by lra.
  assert (Hg : degrees (PI / 2) = 90) by (unfold degrees; field; apply PI_neq0).
  rewrite Hg, (float_rem_shift 1) by lra. lra.
Qed.

(** Due west on the equator is 270 degrees. *)
Lemma haversine_heading_west (lon1 lon2 : R) :
  0 < lon1 - lon2 < 180 -> haversine_heading 0 lon1 0 lon2 = 270.
Proof.
  intros [Hlo Hhi]. unfold haversine_heading. cbv zeta.
  rewrite radians_0, sin_0, cos_0.
  assert (Hd : radians lon2 - radians lon1 = - radians (lon1 - lon2))
    by (unfold radians; ring).
  rewrite Hd, sin_neg, cos_neg.
  assert (Hs : 0 < sin (radians (lon1 - lon2)))
    by (apply sin_gt_0; [apply radians_pos | apply radians_lt_PI]; assumption).
  replace (1 * 0 - 0 * 1 * cos (radians (lon1 - lon2))) with 0 by ring.
  rewrite atan2_west by lra.
  assert (Hg : degrees (- (PI / 2)) = - 90) by (unfold degrees; field; apply PI_neq0).
  rewrite Hg, (float_rem_shift 0) by lra. lra.
Qed.

(** Due north along a meridian is 0 degrees. *)
Lemma haversine_heading_north (lat1 lat2 lon0 : R) :
  0 < lat2 - lat1 < 180 -> haversine_heading lat1 lon0 lat2 lon0 = 0.
Proof.
  intros [Hlo Hhi]. unfold haversine_heading. cbv zeta.
  replace (radians lon0 - radians lon0) with 0 by ring.
  rewrite sin_0, cos_0, Rmult_0_l.
  replace (cos (radians lat1) * sin (radians lat2)
           - sin (radians lat1) * cos (radians lat2) * 1)
    with (sin (radians lat2 - radians lat1)) by (rewrite sin_minus; ring).
  assert (Hd : radians lat2 - radians lat1 = radians (lat2 - lat1))
    by (unfold radians; ring).
  rewrite Hd.
  assert (Hs : 0 < sin (radians (lat2 - lat1)))
    by (apply sin_gt_0; [apply radians_pos | apply radians_lt_PI]; assumption).
  rewrite atan2_north by assumption.
  assert (Hg : degrees 0 = 0) by (unfold degrees; ring).
  rewrite Hg, (float_rem_shift 1) by lra. lra.
Qed.

(** ** The fields of the state after one fix *)

Lemma process_fix_prev_lat (st : state) (f : Fix) :
  prev_lat (process_fix st f) = Some (lat f).
Proof.
  unfold process_fix.
  destruct (prev_lat st), (prev_lon st); try reflexivity.
  destruct (estimate st f r r0) as [[h |] b]; [destruct (reported_heading f) |]; reflexivity.
Qed.

Lemma process_fix_prev_lon (st : state) (f : Fix) :
  prev_lon (process_fix st f) = Some (lon f).
Proof.
  unfold process_fix.
  destruct (prev_lat st), (prev_lon st); try reflexivity.
  destruct (estimate st f r r0) as [[h |] b]; [destruct (reported_heading f) |]; reflexivity.
Qed.

Lemma process_fix_last_speed (st : state) (f : Fix) :
  last_speed (process_fix st f) = Some (speed_m_s f).
Proof.
  unfold process_fix.
  destruct (prev_lat st), (prev_lon st); try reflexivity.
  destruct (estimate st f r r0) as [[h |] b]; [destruct (reported_heading f) |]; reflexivity.
Qed.

Lemma process_fix_speed_buffer (st : state) (f : Fix) :
  speed_buffer (process_fix st f) = deque_append 5 (speed_buffer st) (speed_m_s f).
Proof.
  unfold process_fix.
  destruct (prev_lat st), (prev_lon st); try reflexivity.
  destruct (estimate st f r r0) as [[h |] b]; [destruct (reported_heading f) |]; reflexivity.
Qed.

Lemma process_fix_previous_fixes (st : state) (f : Fix) :
  previous_fixes (process_fix st f)
  = deque_append 5 (previous_fixes st) (lat f, lon f).
Proof.
  unfold process_fix.
  destruct (prev_lat st), (prev_lon st); try reflexivity.
  destruct (estimate st f r r0) as [[h |] b]; [destruct (reported_heading f) |]; reflexivity.
Qed.

Lemma process_fix_heading (st : state) (f : Fix) :
  last_valid_heading (process_fix st f)
  = match prev_lat st, prev_lon st with
    | Some plat, Some plon => fst (estimate st f plat plon)
    | _, _ => last_valid_heading st
    end.
Proof.
  unfold process_fix.
  destruct (prev_lat st), (prev_lon st); try reflexivity.
  destruct (estimate st f r r0) as [[h |] b]; [destruct (reported_heading f) |]; reflexivity.
Qed.

Lemma process_fix_first (st : state) (f : Fix) :
  first_heading_calculated (process_fix st f)
  = match prev_lat st, prev_lon st with
    | Some plat, Some plon => snd (estimate st f plat plon)
    | _, _ => first_heading_calculated st
    end.
Proof.
  unfold process_fix.
  destruct (prev_lat st), (prev_lon st); try reflexivity.
  destruct (estimate st f r r0) as [[h |] b]; [destruct (reported_heading f) |]; reflexivity.
Qed.

(** Lists of equal length that grow in step stay paired. *)
Lemma combine_snoc {A B : Type} (l : list A) (l' : list B) (a : A) (b : B) :
  length l = length l' -> combine (l ++ [a]) (l' ++ [b]) = combine l l' ++ [(a, b)].
Proof.
  revert l'. induction l as [| x l IH]; intros [| y l'] H; simpl in H; try discriminate.
  - reflexivity.
  - simpl. rewrite IH by (injection H; trivial). reflexivity.
Qed.

(** The samples after one fix: one more when the heading after the
    [if]/[elif] chain and the reported heading are both known. *)
Lemma process_fix_samples (st : state) (f : Fix) :
  length (calculated_headings st) = length (timestamps st) ->
  length (reported_headings st) = length (timestamps st) ->
  samples (process_fix st f)
  = match prev_lat st, prev_lon st with
    | Some _, Some _ =>
        match last_valid_heading (process_fix st f), reported_heading f with
        | Some h, Some r => samples st ++ [(timestamp f, (radians h, radians r))]
        | _, _ => samples st
        end
    | _, _ => samples st
    end.
Proof.
  intros Hc Hr. unfold process_fix.
  destruct (prev_lat st), (prev_lon st); try reflexivity.
  destruct (estimate st f r r0) as [[h |] b]; [destruct (reported_heading f) |];
    try reflexivity.
  unfold samples. cbn [timestamps calculated_headings reported_headings last_valid_heading].
  rewrite (combine_snoc (calculated_headings st)) by congruence.
  rewrite combine_snoc; [reflexivity |].
  rewrite length_combine, Hc, Hr. symmetry. apply Nat.min_id.
Qed.

(** ** The bounded deque *)

Lemma deque_append_length {A : Type} (n : nat) (d : list A) (x : A) :
  (length d <= n)%nat -> (length (deque_append n d x) <= n)%nat.
Proof.
  intros H. unfold deque_append.
  destruct (n <? length (d ++ [x]))%nat eqn:E.
  - destruct d as [| y d]; simpl in *; [lia |].
    rewrite length_app in *. simpl in *. lia.
  - apply Nat.ltb_ge in E. assumption.
Qed.

Lemma deque_append_nonempty {A : Type} (n : nat) (d : list A) (x : A) :
  (0 < n)%nat -> (0 < length (deque_append n d x))%nat.
Proof.
  intros H. unfold deque_append.
  destruct (n <? length (d ++ [x]))%nat eqn:E.
  - apply Nat.ltb_lt in E. destruct d as [| y d]; simpl in *; [lia |].
    rewrite length_app in *. simpl in *. lia.
  - rewrite length_app. simpl. lia.
Qed.

Lemma deque_append_Forall {A : Type} (P : A -> Prop) (n : nat) (d : list A) (x : A) :
  Forall P d -> P x -> Forall P (deque_append n d x).
Proof.
  intros Hd Hx. unfold deque_append.
  assert (H : Forall P (d ++ [x])) by (apply Forall_app; split; [assumption | auto]).
  destruct (n <? length (d ++ [x]))%nat; [| assumption].
  destruct (d ++ [x]); [constructor | now inversion H].
Qed.

(** A deque that is not yet full keeps everything. *)
Lemma deque_append_room {A : Type} (n : nat) (d : list A) (x : A) :
  (length d < n)%nat -> deque_append n d x = d ++ [x].
Proof.
  intros H. unfold deque_append.
  destruct (n <? length (d ++ [x]))%nat eqn:E; [| reflexivity].
  apply Nat.ltb_lt in E. rewrite length_app in E. simpl in E. lia.
Qed.

(** A full deque drops its oldest item. *)
Lemma deque_append_full {A : Type} (n : nat) (y : A) (d : list A) (x : A) :
  length (y :: d) = n -> deque_append n (y :: d) x = d ++ [x].
Proof.
  intros H. unfold deque_append.
  destruct (n <? length ((y :: d) ++ [x]))%nat eqn:E; [reflexivity |].
  apply Nat.ltb_ge in E. simpl in *. rewrite length_app in E. simpl in E. lia.
Qed.

(** ** Sums and averages *)

Lemma fold_left_Rplus (l : list R) (a : R) :
  fold_left Rplus l a = a + fold_left Rplus l 0.
Proof.
  revert a. induction l as [| x l IH]; intros a; simpl.
  - ring.
  - rewrite (IH (a + x)), (IH (0 + x)). ring.
Qed.

Lemma sum_cons (x : R) (l : list R) : sum (x :: l) = x + sum l.
Proof. unfold sum. simpl. rewrite fold_left_Rplus. ring. Qed.

Lemma sum_le (c : R) (l : list R) :
  Forall (fun s => s <= c) l -> sum l <= c * len l.
Proof.
  unfold len. induction 1 as [| x l Hx Hl IH].
  - unfold sum. simpl. lra.
  - rewrite sum_cons. change (length (x :: l)) with (S (length l)).
    rewrite S_INR. lra.
Qed.

(** The mean of numbers that are all at most [c] is at most [c]. *)
Lemma avg_speed_le (c : R) (l : list R) :
  (0 < length l)%nat -> Forall (fun s => s <= c) l -> avg_speed l <= c.
Proof.
  intros Hn Hl. unfold avg_speed.
  assert (Hpos : 0 < len l) by (unfold len; apply lt_0_INR; assumption).
  apply Rmult_le_reg_r with (len l); [assumption |].
  replace (sum l / len l * len l) with (sum l) by (field; lra).
  apply sum_le. assumption.
Qed.

(** ** States reached by the loop *)

Lemma consistent_init : consistent init_state.
Proof.
  constructor; simpl; try reflexivity; try lia; discriminate.
Qed.

Lemma estimate_first (st : state) (f : Fix) (plat plon : R) :
  snd (estimate st f plat plon) = true.
Proof.
  unfold estimate. destruct (first_heading_calculated st); simpl.
  - destruct (motion st f); reflexivity.
  - reflexivity.
Qed.

Lemma estimate_heading (st : state) (f : Fix) (plat plon : R) :
  (first_heading_calculated st = true -> exists h, last_valid_heading st = Some h) ->
  exists h, fst (estimate st f plat plon) = Some h.
Proof.
  intros H. unfold estimate. destruct (first_heading_calculated st); simpl.
  - destruct (motion st f); simpl; [eexists; reflexivity | auto].
  - eexists; reflexivity.
Qed.

Lemma consistent_process_fix (st : state) (f : Fix) :
  consistent st -> consistent (process_fix st f).
Proof.
  intros [Hc Hr Hs Hf Hp Hh].
  assert (Hs' : (length (speed_buffer (process_fix st f)) <= 5)%nat)
    by (rewrite process_fix_speed_buffer; apply deque_append_length; assumption).
  assert (Hf' : (length (previous_fixes (process_fix st f)) <= 5)%nat)
    by (rewrite process_fix_previous_fixes; apply deque_append_length; assumption).
  assert (Hp' : exists plat plon, prev_lat (process_fix st f) = Some plat
                                  /\ prev_lon (process_fix st f) = Some plon).
  { exists (lat f), (lon f).
    rewrite process_fix_prev_lat, process_fix_prev_lon. split; reflexivity. }
  assert (Hh' : first_heading_calculated (process_fix st f) = true ->
                exists h, last_valid_heading (process_fix st f) = Some h).
  { rewrite process_fix_first, process_fix_heading.
    destruct (prev_lat st), (prev_lon st); auto.
    intros _. apply estimate_heading. assumption. }
  constructor; auto; clear Hs' Hf' Hp' Hh';
    unfold process_fix; destruct (prev_lat st), (prev_lon st); simpl; auto;
    destruct (estimate st f r r0) as [[h |] b]; simpl; auto;
    destruct (reported_heading f); simpl; auto;
    rewrite !length_app; simpl; lia.
Qed.

Lemma run_app (st : state) (fs gs : list Fix) :
  run st (fs ++ gs) = run (run st fs) gs.
Proof. unfold run. apply fold_left_app. Qed.

Lemma consistent_run (st : state) (fs : list Fix) :
  consistent st -> consistent (run st fs).
Proof.
  revert st. induction fs as [| f fs IH]; intros st H; simpl.
  - assumption.
  - apply IH, consistent_process_fix, H.
Qed.

(** * The claims *)

(** C9.  For all inputs, [haversine_heading] returns a value in [0, 360):
    the forward azimuth [atan2 (sin dlon * cos lat2)
    (cos lat1 * sin lat2 - sin lat1 * cos lat2 * cos dlon)] of the inputs in
    radians, turned into degrees and normalised by adding 360 and taking
    the remainder modulo 360; the normalisation leaves an azimuth that is
    not negative as it is and adds a full turn to a negative one. *)
Theorem haversine_heading_azimuth (lat1 lon1 lat2 lon2 : R) :
  let dlon := radians lon2 - radians lon1 in
  let azimuth :=
    atan2 (sin dlon * cos (radians lat2))
          (cos (radians lat1) * sin (radians lat2)
           - sin (radians lat1) * cos (radians lat2) * cos dlon) in
  0 <= haversine_heading lat1 lon1 lat2 lon2 < 360
  /\ haversine_heading lat1 lon1 lat2 lon2 = float_rem (degrees azimuth + 360) 360
  /\ haversine_heading lat1 lon1 lat2 lon2
     = if Rlt_dec azimuth 0 then degrees azimuth + 360 else degrees azimuth.
Proof.
  intros dlon azimuth.
  split; [apply haversine_heading_range |].
  split; [reflexivity |].
  change (haversine_heading lat1 lon1 lat2 lon2)
    with (float_rem (degrees azimuth + 360) 360).
  pose proof (atan2_range (sin dlon * cos (radians lat2))
                (cos (radians lat1) * sin (radians lat2)
                 - sin (radians lat1) * cos (radians lat2) * cos dlon)) as [Hlo Hhi].
  fold azimuth in Hlo, Hhi.
  pose proof PI_RGT_0 as HP.
  assert (Hk : 0 < 180 / PI) by (apply Rdiv_lt_0_compat; lra).
  assert (Hpi : PI * (180 / PI) = 180) by (field; lra).
  assert (Hd : - 180 < degrees azimuth <= 180).
  { unfold degrees.
    assert (azimuth * (180 / PI) <= PI * (180 / PI))
      by (apply Rmult_le_compat_r; lra).
    assert (- PI * (180 / PI) < azimuth * (180 / PI))
      by (apply Rmult_lt_compat_r; lra).
    lra. }
  destruct (Rlt_dec azimuth 0) as [Hneg | Hpos].
  - assert (degrees azimuth < 0).
    { unfold degrees. replace 0 with (0 * (180 / PI)) by ring.
      apply Rmult_lt_compat_r; assumption. }
    rewrite (float_rem_shift 0) by lra. lra.
  - assert (0 <= degrees azimuth).
    { unfold degrees. apply Rmult_le_pos; lra. }
    rewrite (float_rem_shift 1) by lra. lra.
Qed.

(** C7.  The speed difference of a fix is the absolute difference between
    its speed and the speed of the fix processed just before it, and 0 when
    there is no earlier speed, as on the first fix of a session. *)
Theorem speed_diff_previous (st : state) (f : Fix) (current_speed : R) :
  speed_diff current_speed (last_speed (process_fix st f))
  = Rabs (current_speed - speed_m_s f)
  /\ speed_diff current_speed None = 0
  /\ speed_diff current_speed (last_speed init_state) = 0.
Proof.
  rewrite process_fix_last_speed. repeat split; reflexivity.
Qed.

(** What seven observations leave in a deque of five. *)
Lemma deque_after_seven {A : Type} (a b c d e f g : A) :
  fold_left (deque_append 5) [a; b; c; d; e; f; g] [] = [c; d; e; f; g].
Proof. reflexivity. Qed.

Lemma run_previous_fixes (st : state) (fs : list Fix) :
  previous_fixes (run st fs)
  = fold_left (deque_append 5) (map (fun f => (lat f, lon f)) fs) (previous_fixes st).
Proof.
  revert st. induction fs as [| f fs IH]; intros st; simpl; [reflexivity |].
  rewrite IH, process_fix_previous_fixes. reflexivity.
Qed.

Lemma run_speed_buffer (st : state) (fs : list Fix) :
  speed_buffer (run st fs)
  = fold_left (deque_append 5) (map speed_m_s fs) (speed_buffer st).
Proof.
  revert st. induction fs as [| f fs IH]; intros st; simpl; [reflexivity |].
  rewrite IH, process_fix_speed_buffer. reflexivity.
Qed.

(** C6.  The smoothing window never holds more than 5 positions nor more
    than 5 speeds; after 7 positions the window holds the last 5 of them,
    oldest first, and the average position is their arithmetic mean. *)
Theorem window_bounded_fifo :
  (forall fs : list Fix,
      (length (previous_fixes (run init_state fs)) <= 5)%nat
      /\ (length (speed_buffer (run init_state fs)) <= 5)%nat)
  /\ (forall f1 f2 f3 f4 f5 f6 f7 : Fix,
         let window := previous_fixes (run init_state [f1; f2; f3; f4; f5; f6; f7]) in
         window = [(lat f3, lon f3); (lat f4, lon f4); (lat f5, lon f5);
                   (lat f6, lon f6); (lat f7, lon f7)]
         /\ avg_lat window = (lat f3 + lat f4 + lat f5 + lat f6 + lat f7) / 5
         /\ avg_lon window = (lon f3 + lon f4 + lon f5 + lon f6 + lon f7) / 5).
Proof.
  split.
  - intros fs. pose proof (consistent_run init_state fs consistent_init) as H.
    split; [apply (fixes_bounded _ H) | apply (speeds_bounded _ H)].
  - intros f1 f2 f3 f4 f5 f6 f7 window.
    assert (Hw : window = [(lat f3, lon f3); (lat f4, lon f4); (lat f5, lon f5);
                           (lat f6, lon f6); (lat f7, lon f7)]).
    { unfold window. rewrite run_previous_fixes. apply deque_after_seven. }
    split; [assumption |].
    rewrite Hw. unfold avg_lat, avg_lon, sum, len. simpl. split; lra.
Qed.

(** The result lists after one pass: unchanged, or longer by one sample. *)
Lemma process_fix_results (st : state) (f : Fix) :
  results (process_fix st f) = results st
  \/ exists h r,
      last_valid_heading (process_fix st f) = Some h
      /\ reported_heading f = Some r
      /\ results (process_fix st f)
         = (timestamps st ++ [timestamp f],
            calculated_headings st ++ [radians h],
            reported_headings st ++ [radians r]).
Proof.
  unfold process_fix, results.
  destruct (prev_lat st) as [plat |], (prev_lon st) as [plon |];
    try (left; reflexivity).
  destruct (estimate st f plat plon) as [[h |] b]; [| left; reflexivity].
  destruct (reported_heading f) as [r |]; [| left; reflexivity].
  right. exists h, r. repeat split; reflexivity.
Qed.

Lemma process_fix_results_null (st : state) (f : Fix) :
  reported_heading f = None -> results (process_fix st f) = results st.
Proof.
  intros H. destruct (process_fix_results st f) as [E | (h & r & _ & Hr & _)].
  - exact E.
  - congruence.
Qed.

(** C5.  A fix whose reported heading is null leaves the three result lists
    as they were, whatever was computed or held on that pass; the lists
    grow, by one sample, only when the heading after the pass and the
    reported heading are both known. *)
Theorem null_reported_no_sample (st : state) (f : Fix) :
  (reported_heading f = None -> results (process_fix st f) = results st)
  /\ (results (process_fix st f) = results st
      \/ exists h r,
          last_valid_heading (process_fix st f) = Some h
          /\ reported_heading f = Some r
          /\ results (process_fix st f)
             = (timestamps st ++ [timestamp f],
                calculated_headings st ++ [radians h],
                reported_headings st ++ [radians r])).
Proof.
  split; [apply process_fix_results_null | apply process_fix_results].
Qed.

Lemma null_reported_no_sample_witness :
  reported_heading (mkFix 0 1 None 0 1) = None
  /\ last_valid_heading
       (process_fix (process_fix init_state (mkFix 0 0 None 0 0)) (mkFix 0 1 None 0 1))
     = Some (haversine_heading 0 0 0 1)
  /\ results
       (process_fix (process_fix init_state (mkFix 0 0 None 0 0)) (mkFix 0 1 None 0 1))
     = results (process_fix init_state (mkFix 0 0 None 0 0)).
Proof.
  split; [reflexivity |]. split; [reflexivity |].
  apply (null_reported_no_sample
           (process_fix init_state (mkFix 0 0 None 0 0)) (mkFix 0 1 None 0 1)).
  reflexivity.
Defined.

(** C10.  A message with status 'A' whose true course is falsy, in
    particular a course of exactly 0 degrees, is processed as a fix without
    a reported heading, and no sample is stored for it. *)
Theorem zero_course_no_sample (st : state) (t : R) (msg : RMC) (knots : R) :
  status msg = "A"%string ->
  spd_over_grnd msg = Some knots ->
  true_course msg = Some 0 \/ true_course msg = None ->
  handle_message st t msg
  = Ok (process_fix st (mkFix (latitude msg) (longitude msg) None (knots * 0.514444) t))
  /\ results (process_fix st (mkFix (latitude msg) (longitude msg) None
                                (knots * 0.514444) t))
     = results st.
Proof.
  intros Hs Hk Hc. split.
  - unfold handle_message. rewrite Hs, Hk. simpl.
    destruct Hc as [Hc | Hc]; rewrite Hc; simpl; [rewrite truthy_0 |]; reflexivity.
  - apply process_fix_results_null. reflexivity.
Qed.

Lemma zero_course_no_sample_witness :
  handle_message (process_fix init_state (mkFix 0 0 None 0 0)) 1
    (mkRMC "A" 0 1 (Some 0) (Some 1))
  = Ok (process_fix (process_fix init_state (mkFix 0 0 None 0 0))
          (mkFix 0 1 None (1 * 0.514444) 1))
  /\ results (process_fix (process_fix init_state (mkFix 0 0 None 0 0))
                (mkFix 0 1 None (1 * 0.514444) 1))
     = results (process_fix init_state (mkFix 0 0 None 0 0)).
Proof.
  apply (zero_course_no_sample (process_fix init_state (mkFix 0 0 None 0 0)) 1
           (mkRMC "A" 0 1 (Some 0) (Some 1)) 1).
  - reflexivity.
  - reflexivity.
  - left. reflexivity.
Defined.

(** ** Evaluating the loop body on given fixes *)

Lemma motion_spec (st : state) (f : Fix) :
  motion st f = true
  <-> speed_diff (speed_m_s f) (last_speed st) > 0.2
      \/ avg_speed (deque_append 5 (speed_buffer st) (speed_m_s f)) > 0.2.
Proof. unfold motion. rewrite orb_true_iff, !Rgtb_spec. reflexivity. Qed.

Lemma motion_false (st : state) (f : Fix) :
  speed_diff (speed_m_s f) (last_speed st) <= 0.2 ->
  avg_speed (deque_append 5 (speed_buffer st) (speed_m_s f)) <= 0.2 ->
  motion st f = false.
Proof. intros H1 H2. unfold motion. rewrite !Rgtb_false by assumption. reflexivity. Qed.

Lemma motion_true (st : state) (f : Fix) :
  speed_diff (speed_m_s f) (last_speed st) > 0.2
  \/ avg_speed (deque_append 5 (speed_buffer st) (speed_m_s f)) > 0.2 ->
  motion st f = true.
Proof. apply motion_spec. Qed.

(** The first two fixes of a session: the second one sets the heading from
    the two raw positions and stores a sample if it reports a heading. *)
Lemma run_two (f1 f2 : Fix) :
  run init_state [f1; f2]
  = let h := haversine_heading (lat f1) (lon f1) (lat f2) (lon f2) in
    mkState (Some (lat f2)) (Some (lon f2)) (Some h) (Some (speed_m_s f2))
      [speed_m_s f1; speed_m_s f2]
      (match reported_heading f2 with Some _ => [radians h] | None => [] end)
      (match reported_heading f2 with Some r => [radians r] | None => [] end)
      (match reported_heading f2 with Some _ => [timestamp f2] | None => [] end)
      [(lat f1, lon f1); (lat f2, lon f2)] true.
Proof.
  unfold run. cbn [fold_left]. unfold process_fix at 1. cbn.
  destruct (reported_heading f2); reflexivity.
Qed.

Ltac loop_body :=
  unfold process_fix, estimate;
  cbn [prev_lat prev_lon first_heading_calculated negb].

Ltac averages :=
  unfold avg_speed, avg_lat, avg_lon, sum, len, speed_diff;
  cbn [speed_m_s last_speed speed_buffer previous_fixes lat lon];
  simpl.

Lemma scenario_run :
  run init_state scenario
  = mkState (Some 0) (Some 2) (Some (haversine_heading 0 0 0 1)) (Some 0.05)
      [0; 0.05; 0.05]
      [radians (haversine_heading 0 0 0 1); radians (haversine_heading 0 0 0 1)]
      [radians 88; radians 89] [1; 2] [(0, 0); (0, 1); (0, 2)] true.
Proof.
  change (run init_state scenario)
    with (process_fix (run init_state [mkFix 0 0 None 0 0; mkFix 0 1 (Some 88) 0.05 1])
            (mkFix 0 2 (Some 89) 0.05 2)).
  rewrite run_two. cbn [lat lon speed_m_s reported_heading timestamp].
  loop_body.
  rewrite motion_false.
  - reflexivity.
  - averages. replace (0.05 - 0.05) with 0 by lra. rewrite Rabs_R0. lra.
  - averages. lra.
Qed.

(** C1 as amended.  On the three fixes of the scenario the loop stores two
    samples, at t=1 and at t=2, both with the bearing from (0,0) to (0,1)
    as calculated heading, and that bearing is 90 degrees. *)
Theorem scenario_two_samples :
  results (run init_state scenario)
  = ([1; 2],
     [radians (haversine_heading 0 0 0 1); radians (haversine_heading 0 0 0 1)],
     [radians 88; radians 89])
  /\ haversine_heading 0 0 0 1 = 90.
Proof.
  split.
  - rewrite scenario_run. reflexivity.
  - apply haversine_heading_east. lra.
Qed.

(** C1 as stated fails: the result of the scenario is not a single sample
    at t=2. *)
Lemma scenario_not_one_sample :
  ~ (exists calculated reported,
        results (run init_state scenario) = ([2], [calculated], [reported])).
Proof.
  intros (c & r & H). rewrite scenario_run in H. unfold results in H.
  cbn [timestamps calculated_headings reported_headings] in H.
  discriminate H.
Qed.

(** C2.  For a fix processed after the first heading was computed, the
    heading becomes the bearing from the average position of the window to
    the position of the fix when the speed difference or the rolling
    average speed exceeds 0.2, and stays what it was otherwise. *)
Theorem motion_gate (fs : list Fix) (f : Fix) :
  let st := run init_state fs in
  let st' := process_fix st f in
  let moving :=
    speed_diff (speed_m_s f) (last_speed st) > 0.2
    \/ avg_speed (speed_buffer st') > 0.2 in
  first_heading_calculated st = true ->
  (moving ->
   last_valid_heading st'
   = Some (haversine_heading (avg_lat (previous_fixes st'))
             (avg_lon (previous_fixes st')) (lat f) (lon f)))
  /\ (~ moving -> last_valid_heading st' = last_valid_heading st).
Proof.
  intros st st' moving Hfirst.
  pose proof (consistent_run init_state fs consistent_init) as Hc. fold st in Hc.
  destruct (first_has_prev st Hc Hfirst) as (plat & plon & Hlat & Hlon).
  assert (Hm : motion st f = true <-> moving).
  { unfold moving, st'. rewrite process_fix_speed_buffer. apply motion_spec. }
  assert (Hh : last_valid_heading st' = fst (estimate st f plat plon)).
  { unfold st'. rewrite process_fix_heading, Hlat, Hlon. reflexivity. }
  rewrite Hh. unfold estimate. rewrite Hfirst. cbn [negb].
  split; intros Hmove.
  - apply Hm in Hmove. rewrite Hmove. unfold st'.
    rewrite process_fix_previous_fixes. reflexivity.
  - destruct (motion st f); [| reflexivity].
    exfalso. apply Hmove, Hm. reflexivity.
Qed.

Lemma motion_gate_witness :
  first_heading_calculated (run init_state silent_bootstrap) = true
  /\ (speed_diff (speed_m_s fast_fix) (last_speed (run init_state silent_bootstrap)) > 0.2
      \/ avg_speed (speed_buffer (process_fix (run init_state silent_bootstrap) fast_fix))
         > 0.2 ->
      last_valid_heading (process_fix (run init_state silent_bootstrap) fast_fix)
      = Some (haversine_heading
                (avg_lat (previous_fixes
                            (process_fix (run init_state silent_bootstrap) fast_fix)))
                (avg_lon (previous_fixes
                            (process_fix (run init_state silent_bootstrap) fast_fix)))
                (lat fast_fix) (lon fast_fix))).
Proof.
  split; [reflexivity |].
  apply (motion_gate silent_bootstrap fast_fix). reflexivity.
Defined.

(** ** Bearings with a westward component *)

Lemma atan2_south_west (y x : R) : y < 0 -> - PI < atan2 y x < 0.
Proof.
  intros Hy. pose proof PI_RGT_0 as HP. unfold atan2.
  destruct (Rlt_dec 0 x) as [Hx | Hx].
  - assert (y / x < 0).
    { unfold Rdiv. assert (0 < / x) by (apply Rinv_0_lt_compat; assumption). nra. }
    pose proof (atan_bound (y / x)).
    assert (atan (y / x) < 0) by (rewrite <- atan_0; apply atan_increasing; assumption).
    lra.
  - destruct (Rlt_dec x 0) as [Hx' | Hx'].
    + destruct (Rle_dec 0 y); [lra |].
      assert (0 < y / x).
      { unfold Rdiv. assert (/ x < 0) by (apply Rinv_lt_0_compat; assumption). nra. }
      pose proof (atan_bound (y / x)).
      assert (0 < atan (y / x)) by (rewrite <- atan_0; apply atan_increasing; assumption).
      lra.
    + destruct (Rlt_dec 0 y); [lra |]. destruct (Rlt_dec y 0); lra.
Qed.

(** A bearing whose east component is negative lies strictly between 180 and
    360 degrees. *)
Lemma haversine_heading_westward (lat1 lon1 lat2 lon2 : R) :
  sin (radians lon2 - radians lon1) * cos (radians lat2) < 0 ->
  180 < haversine_heading lat1 lon1 lat2 lon2 < 360.
Proof.
  intros Hx. unfold haversine_heading. cbv zeta.
  match goal with |- context [atan2 ?a ?b] =>
    pose proof (atan2_south_west a b Hx) as [Hlo Hhi];
    set (azimuth := atan2 a b) in *
  end.
  pose proof PI_RGT_0 as HP.
  assert (Hk : 0 < 180 / PI) by (apply Rdiv_lt_0_compat; lra).
  assert (Hpi : PI * (180 / PI) = 180) by (field; lra).
  assert (Hd : - 180 < degrees azimuth < 0).
  { unfold degrees.
    assert (- PI * (180 / PI) < azimuth * (180 / PI))
      by (apply Rmult_lt_compat_r; lra).
    assert (azimuth * (180 / PI) < 0 * (180 / PI))
      by (apply Rmult_lt_compat_r; lra).
    lra. }
  rewrite (float_rem_shift 0) by lra. lra.
Qed.

(** C3 as amended.  The second fix of a session sets the heading to the
    bearing from the raw previous position to the raw current position,
    whatever the speeds, the window and the gate; when that fix reports a
    heading, the first sample is stored on it and carries that bearing. *)
Theorem bootstrap_from_raw_positions (f1 f2 : Fix) :
  let st := run init_state [f1; f2] in
  let raw := haversine_heading (lat f1) (lon f1) (lat f2) (lon f2) in
  last_valid_heading (run init_state [f1]) = None
  /\ last_valid_heading st = Some raw
  /\ forall r, reported_heading f2 = Some r ->
               samples st = [(timestamp f2, (radians raw, radians r))].
Proof.
  intros st raw. split; [reflexivity |].
  unfold st. rewrite run_two. split; [reflexivity |].
  intros r Hr. rewrite Hr. reflexivity.
Qed.

Lemma bootstrap_from_raw_positions_witness :
  reported_heading (mkFix 0 1 (Some 88) 25 1) = Some 88
  /\ samples (run init_state [mkFix 0 0 None 30 0; mkFix 0 1 (Some 88) 25 1])
     = [(1, (radians (haversine_heading 0 0 0 1), radians 88))].
Proof.
  split; [reflexivity |].
  apply (bootstrap_from_raw_positions (mkFix 0 0 None 30 0) (mkFix 0 1 (Some 88) 25 1)).
  reflexivity.
Defined.

(** The state after the silent bootstrap and the fast fix. *)
Lemma late_sample_run :
  run init_state (silent_bootstrap ++ [fast_fix])
  = mkState (Some 1) (Some (1 / 2))
      (Some (haversine_heading (avg_lat [(0, 0); (0, 1); (1, 1 / 2)])
               (avg_lon [(0, 0); (0, 1); (1, 1 / 2)]) 1 (1 / 2)))
      (Some 10) [0; 0; 10]
      [radians (haversine_heading (avg_lat [(0, 0); (0, 1); (1, 1 / 2)])
                  (avg_lon [(0, 0); (0, 1); (1, 1 / 2)]) 1 (1 / 2))]
      [radians 45] [2] [(0, 0); (0, 1); (1, 1 / 2)] true.
Proof.
  rewrite run_app. unfold silent_bootstrap. rewrite run_two.
  cbn [lat lon speed_m_s reported_heading timestamp run fold_left].
  loop_body. rewrite motion_true.
  - reflexivity.
  - left. averages. rewrite Rabs_pos_eq; lra.
Qed.

(** C3 as stated fails: when the second fix reports no heading, the first
    sample can carry a heading computed from the average of the window,
    which is neither the bearing between the first two raw positions nor
    the bearing from the raw previous position. *)
Lemma first_sample_from_window :
  let window := [(0, 0); (0, 1); (1, 1 / 2)] in
  let smoothed := haversine_heading (avg_lat window) (avg_lon window) 1 (1 / 2) in
  samples (run init_state (silent_bootstrap ++ [fast_fix]))
  = [(2, (radians smoothed, radians 45))]
  /\ previous_fixes (run init_state (silent_bootstrap ++ [fast_fix])) = window
  /\ smoothed = 0
  /\ haversine_heading 0 0 0 1 = 90
  /\ 180 < haversine_heading 0 1 1 (1 / 2)
  /\ radians smoothed <> radians (haversine_heading 0 0 0 1)
  /\ radians smoothed <> radians (haversine_heading 0 1 1 (1 / 2)).
Proof.
  intros window smoothed.
  assert (Hs : smoothed = 0).
  { unfold smoothed, window.
    replace (avg_lat [(0, 0); (0, 1); (1, 1 / 2)]) with (1 / 3) by (averages; lra).
    replace (avg_lon [(0, 0); (0, 1); (1, 1 / 2)]) with (1 / 2) by (averages; lra).
    apply haversine_heading_north. lra. }
  assert (He : haversine_heading 0 0 0 1 = 90) by (apply haversine_heading_east; lra).
  assert (Hw : 180 < haversine_heading 0 1 1 (1 / 2) < 360).
  { apply haversine_heading_westward.
    replace (radians (1 / 2) - radians 1) with (- radians (1 / 2))
      by (unfold radians; field).
    rewrite sin_neg.
    assert (0 < sin (radians (1 / 2)))
      by (apply sin_gt_0; [apply radians_pos | apply radians_lt_PI]; lra).
    assert (0 < cos (radians 1)).
    { pose proof (radians_pos 1) as Hp. pose proof (radians_lt_PI 2) as Hq.
      assert (radians 2 = 2 * radians 1) by (unfold radians; ring).
      apply cos_gt_0; lra. }
    nra. }
  assert (Hinj : forall a b, radians a = radians b -> a = b).
  { intros a b H. rewrite <- (degrees_radians a), <- (degrees_radians b), H.
    reflexivity. }
  rewrite late_sample_run.
  repeat split; try assumption; try reflexivity; try lra.
  - intros H. apply Hinj in H. lra.
  - intros H. apply Hinj in H. lra.
Qed.

(** One slow fix at constant speed leaves the heading alone and keeps the
    speeds of the window low. *)
Lemma slow_fix_holds (st : state) (f : Fix) (last : R) :
  consistent st ->
  first_heading_calculated st = true ->
  last_speed st = Some last ->
  Rabs (0.05 - last) <= 0.2 ->
  Forall (fun s => s <= 0.2) (speed_buffer st) ->
  speed_m_s f = 0.05 ->
  last_valid_heading (process_fix st f) = last_valid_heading st
  /\ first_heading_calculated (process_fix st f) = true
  /\ last_speed (process_fix st f) = Some 0.05
  /\ Forall (fun s => s <= 0.2) (speed_buffer (process_fix st f)).
Proof.
  intros Hc Hfirst Hlast Hdiff Hlow Hf.
  destruct (first_has_prev st Hc Hfirst) as (plat & plon & Hlat & Hlon).
  assert (Hlow' : Forall (fun s => s <= 0.2) (deque_append 5 (speed_buffer st) (speed_m_s f)))
    by (apply deque_append_Forall; [assumption | lra]).
  assert (Hm : motion st f = false).
  { apply motion_false.
    - rewrite Hlast, Hf. exact Hdiff.
    - apply avg_speed_le; [apply deque_append_nonempty; lia | assumption]. }
  rewrite process_fix_heading, process_fix_first, process_fix_last_speed,
    process_fix_speed_buffer, Hlat, Hlon.
  unfold estimate. rewrite Hfirst, Hm, Hf. cbn [negb fst snd].
  rewrite <- Hf at 3. auto.
Qed.

(** C8 as amended.  After the first heading was computed, fixes at a
    constant 0.05 m/s leave the heading unchanged, provided the speed of
    the fix before them is within 0.2 m/s of 0.05 and no speed in the
    rolling buffer exceeds 0.2 m/s. *)
Theorem slow_fixes_hold_heading (fs rest : list Fix) (last : R) :
  let st := run init_state fs in
  first_heading_calculated st = true ->
  last_speed st = Some last ->
  Rabs (0.05 - last) <= 0.2 ->
  Forall (fun s => s <= 0.2) (speed_buffer st) ->
  Forall (fun f => speed_m_s f = 0.05) rest ->
  last_valid_heading (run st rest) = last_valid_heading st.
Proof.
  intros st Hfirst Hlast Hdiff Hlow Hrest.
  pose proof (consistent_run init_state fs consistent_init) as Hc. fold st in Hc.
  clearbody st. revert st last Hc Hfirst Hlast Hdiff Hlow.
  induction Hrest as [| f rest Hf _ IH]; intros st last Hc Hfirst Hlast Hdiff Hlow.
  - reflexivity.
  - destruct (slow_fix_holds st f last Hc Hfirst Hlast Hdiff Hlow Hf)
      as (Hh & Hfirst' & Hlast' & Hlow').
    cbn [run fold_left]. change (fold_left process_fix rest (process_fix st f))
      with (run (process_fix st f) rest).
    rewrite (IH (process_fix st f) 0.05); try assumption.
    + apply consistent_process_fix. assumption.
    + replace (0.05 - 0.05) with 0 by lra. rewrite Rabs_R0. lra.
Qed.

Lemma slow_fixes_hold_heading_witness :
  first_heading_calculated (run init_state [mkFix 0 0 None 0.1 0; mkFix 0 1 None 0.05 1])
  = true
  /\ last_valid_heading
       (run (run init_state [mkFix 0 0 None 0.1 0; mkFix 0 1 None 0.05 1])
            [slow_fix; mkFix 2 2 (Some 10) 0.05 3])
     = last_valid_heading (run init_state [mkFix 0 0 None 0.1 0; mkFix 0 1 None 0.05 1]).
Proof.
  split; [reflexivity |].
  apply (slow_fixes_hold_heading [mkFix 0 0 None 0.1 0; mkFix 0 1 None 0.05 1]
           [slow_fix; mkFix 2 2 (Some 10) 0.05 3] 0.05).
  - reflexivity.
  - reflexivity.
  - replace (0.05 - 0.05) with 0 by lra. rewrite Rabs_R0. lra.
  - rewrite run_two. cbn [speed_buffer speed_m_s].
    repeat constructor; lra.
  - repeat constructor.
Defined.

(** The state after the fast start and the slow fix. *)
Lemma fast_start_run :
  run (run init_state fast_start) [slow_fix]
  = mkState (Some 1) (Some (1 / 2))
      (Some (haversine_heading (avg_lat [(0, 0); (0, 1); (1, 1 / 2)])
               (avg_lon [(0, 0); (0, 1); (1, 1 / 2)]) 1 (1 / 2)))
      (Some 0.05) [10; 0.05; 0.05] [] [] [] [(0, 0); (0, 1); (1, 1 / 2)] true.
Proof.
  unfold fast_start. rewrite run_two.
  cbn [lat lon speed_m_s reported_heading timestamp run fold_left].
  loop_body. rewrite motion_true.
  - reflexivity.
  - right. averages. lra.
Qed.

(** C8 as stated fails: after a fast first fix, a fix at 0.05 m/s that
    follows a bootstrap fix at 0.05 m/s has speed difference 0, and yet the
    heading is recomputed, from 90 degrees to 0, because the rolling
    average speed is above 0.2 m/s. *)
Lemma slow_fix_recomputes :
  let st := run init_state fast_start in
  first_heading_calculated st = true
  /\ last_speed st = Some 0.05
  /\ speed_m_s slow_fix = 0.05
  /\ speed_diff (speed_m_s slow_fix) (last_speed st) = 0
  /\ last_valid_heading st = Some 90
  /\ last_valid_heading (run st [slow_fix]) = Some 0
  /\ last_valid_heading (run st [slow_fix]) <> last_valid_heading st.
Proof.
  intros st.
  assert (He : last_valid_heading st = Some 90).
  { unfold st, fast_start. rewrite run_two. cbn [last_valid_heading lat lon].
    f_equal. apply haversine_heading_east. lra. }
  assert (Hn : last_valid_heading (run st [slow_fix]) = Some 0).
  { unfold st. rewrite fast_start_run. cbn [last_valid_heading]. f_equal.
    replace (avg_lat [(0, 0); (0, 1); (1, 1 / 2)]) with (1 / 3) by (averages; lra).
    replace (avg_lon [(0, 0); (0, 1); (1, 1 / 2)]) with (1 / 2) by (averages; lra).
    apply haversine_heading_north. lra. }
  repeat split; try assumption; try reflexivity.
  - unfold st, fast_start. rewrite run_two.
    cbn [last_speed speed_m_s slow_fix speed_diff].
    replace (0.05 - 0.05) with 0 by lra. apply Rabs_R0.
  - rewrite Hn, He. intros H. injection H as H. lra.
Qed.

(** ** The reading loop *)

(** A line that is not an RMC sentence, or that does not parse, or whose
    status is not 'A', is skipped. *)
Lemma step_skips (parse : string -> parsed) (st : state) (rd : read) :
  is_rmc (line rd) = false
  \/ parse (line rd) = ParseError
  \/ (exists msg, parse (line rd) = Sentence msg /\ status msg <> "A"%string) ->
  step parse st rd = Ok st.
Proof.
  unfold step. intros [H | [H | (msg & H & Hs)]].
  - rewrite H. reflexivity.
  - rewrite H. destruct (is_rmc (line rd)); reflexivity.
  - rewrite H. destruct (is_rmc (line rd)); [| reflexivity].
    unfold handle_message. apply String.eqb_neq in Hs. rewrite Hs. reflexivity.
Qed.

(** C4 fails on the code: a line that parses as an RMC sentence with status
    'A' and an empty speed field raises [TypeError] at line 48, which the
    [except pynmea2.ParseError] clause does not catch; the loop stops and
    the session returns nothing, whatever was read before it or would have
    been read after it. *)
Theorem empty_speed_aborts
  (parse : string -> parsed) (before after : list read) (rd : read) (msg : RMC) :
  is_rmc (line rd) = true ->
  parse (line rd) = Sentence msg ->
  status msg = "A"%string ->
  spd_over_grnd msg = None ->
  read_nmea_rmc parse (before ++ rd :: after) = Raise TypeError.
Proof.
  intros Hr Hp Hs Hn. unfold read_nmea_rmc.
  assert (H : loop parse init_state (before ++ rd :: after) = Raise TypeError).
  { generalize init_state as st.
    induction before as [| r before IH]; intros st; simpl.
    - unfold step. rewrite Hr, Hp. unfold handle_message. rewrite Hs, Hn. reflexivity.
    - destruct (step parse st r) as [st' | []]; [apply IH | reflexivity]. }
  rewrite H. reflexivity.
Qed.

Lemma empty_speed_aborts_witness :
  read_nmea_rmc fixture_parse
    [mkRead 0 "$GPGGA,123519"; mkRead 1 no_speed_line; mkRead 2 "$GPGGA,123520"]
  = Raise TypeError.
Proof.
  apply (empty_speed_aborts fixture_parse [mkRead 0 "$GPGGA,123519"]
           [mkRead 2 "$GPGGA,123520"] (mkRead 1 no_speed_line) no_speed_msg).
  - reflexivity.
  - reflexivity.
  - reflexivity.
  - reflexivity.
Defined.

(** * Further properties of the loop *)

(** ** The loop as a fix source followed by the estimator *)

Lemma step_fix_of (parse : string -> parsed) (st : state) (rd : read) :
  step parse st rd
  = match fix_of parse rd with
    | None => Ok st
    | Some (Ok f) => Ok (process_fix st f)
    | Some (Raise e) => Raise e
    end.
Proof.
  unfold step, fix_of, handle_message.
  destruct (is_rmc (line rd)); [| reflexivity].
  destruct (parse (line rd)) as [| msg]; [reflexivity |].
  destruct (status msg =? "A")%string; [| reflexivity].
  destruct (spd_over_grnd msg); reflexivity.
Qed.

Lemma loop_fixes (parse : string -> parsed) (st : state) (reads : list read) :
  loop parse st reads
  = match fixes_of parse reads with
    | Ok fs => Ok (run st fs)
    | Raise e => Raise e
    end.
Proof.
  revert st. induction reads as [| rd rest IH]; intros st; simpl; [reflexivity |].
  rewrite step_fix_of.
  destruct (fix_of parse rd) as [[f | e] |].
  - rewrite IH. destruct (fixes_of parse rest); reflexivity.
  - reflexivity.
  - apply IH.
Qed.

Lemma session_fixes (parse : string -> parsed) (reads : list read) :
  read_nmea_rmc parse reads
  = match fixes_of parse reads with
    | Ok fs => Ok (results (run init_state fs))
    | Raise e => Raise e
    end.
Proof.
  unfold read_nmea_rmc. rewrite loop_fixes.
  destruct (fixes_of parse reads); reflexivity.
Qed.


Lemma fixes_of_filter (parse : string -> parsed) (reads : list read) :
  fixes_of parse (filter (counts parse) reads) = fixes_of parse reads.
Proof.
  induction reads as [| rd rest IH]; simpl; [reflexivity |].
  unfold counts at 1. destruct (fix_of parse rd) as [[f | e] |] eqn:E; simpl.
  - rewrite E, IH. reflexivity.
  - rewrite E. reflexivity.
  - apply IH.
Qed.

(** X6.  Lines that are not RMC sentences, that fail to parse or whose
    status is not 'A' have no effect: a session returns what it returns on
    the stream without them. *)
Theorem skipped_lines_have_no_effect (parse : string -> parsed) (reads : list read) :
  read_nmea_rmc parse reads = read_nmea_rmc parse (filter (counts parse) reads).
Proof. rewrite !session_fixes, fixes_of_filter. reflexivity. Qed.

(** ** What the result lists hold *)

Lemma results_lengths (fs : list Fix) :
  length (calculated_headings (run init_state fs)) = length (timestamps (run init_state fs))
  /\ length (reported_headings (run init_state fs)) = length (timestamps (run init_state fs)).
Proof.
  pose proof (consistent_run init_state fs consistent_init) as H.
  split; [apply (calculated_in_step _ H) | apply (reported_in_step _ H)].
Qed.

(** X1.  The three lists that a session returns have the same length. *)
Theorem session_lists_same_length
  (parse : string -> parsed) (reads : list read) (ts cs rs : list R) :
  read_nmea_rmc parse reads = Ok (ts, cs, rs) ->
  length cs = length ts /\ length rs = length ts.
Proof.
  rewrite session_fixes. destruct (fixes_of parse reads) as [fs | e]; [| discriminate].
  intros H. injection H as <- <- <-. apply results_lengths.
Qed.

(** The short session stores one sample, for its last line. *)
Lemma short_session_result :
  read_nmea_rmc session_parse short_session
  = Ok ([2], [radians (haversine_heading 0 0 0 1)], [radians 88]).
Proof.
  rewrite session_fixes.
  assert (H : fixes_of session_parse short_session
              = Ok [mkFix 0 0 None (0 * 0.514444) 0;
                    mkFix 0 1 (Some 88) (0.1 * 0.514444) 2]).
  { unfold short_session. cbn [fixes_of].
    assert (H0 : fix_of session_parse (mkRead 0 west_line)
                 = Some (Ok (mkFix 0 0 None (0 * 0.514444) 0))) by reflexivity.
    assert (H1 : fix_of session_parse (mkRead 1 "$GPGGA,120001") = None) by reflexivity.
    assert (H2 : fix_of session_parse (mkRead 2 east_line)
                 = Some (Ok (mkFix 0 1 (Some 88) (0.1 * 0.514444) 2))).
    { change (fix_of session_parse (mkRead 2 east_line))
        with (Some (Ok (mkFix 0 1 (reported_of (Some 88)) (0.1 * 0.514444) 2))).
      unfold reported_of. rewrite truthy_nonzero by lra. reflexivity. }
    rewrite H0, H1, H2. reflexivity. }
  rewrite H, run_two. reflexivity.
Qed.

Lemma session_lists_same_length_witness :
  read_nmea_rmc session_parse short_session
  = Ok ([2], [radians (haversine_heading 0 0 0 1)], [radians 88])
  /\ length [radians (haversine_heading 0 0 0 1)] = length [2]
  /\ length [radians 88] = length [2].
Proof.
  split; [exact short_session_result |].
  apply (session_lists_same_length session_parse short_session).
  exact short_session_result.
Defined.

Lemma radians_bearing (h : R) : 0 <= h < 360 -> 0 <= radians h < 2 * PI.
Proof.
  intros [Hlo Hhi]. unfold radians. pose proof PI_RGT_0 as HP.
  assert (Hk : 0 < PI / 180) by (apply Rdiv_lt_0_compat; lra).
  assert (H360 : 360 * (PI / 180) = 2 * PI) by field.
  split.
  - apply Rmult_le_pos; lra.
  - rewrite <- H360. apply Rmult_lt_compat_r; assumption.
Qed.

Lemma bearings_init : bearings init_state.
Proof. constructor; simpl; [discriminate | constructor]. Qed.

Lemma estimate_bearing (st : state) (f : Fix) (plat plon h : R) :
  bearings st -> fst (estimate st f plat plon) = Some h -> 0 <= h < 360.
Proof.
  intros [Hh _]. unfold estimate.
  destruct (first_heading_calculated st); simpl;
    [destruct (motion st f); simpl |];
    intros E; try (injection E as <-; apply haversine_heading_range).
  apply Hh. assumption.
Qed.

Lemma bearings_process_fix (st : state) (f : Fix) :
  bearings st -> bearings (process_fix st f).
Proof.
  intros Hb. pose proof Hb as [Hh Hs]. unfold process_fix.
  destruct (prev_lat st) as [plat |], (prev_lon st) as [plon |];
    try (constructor; simpl; assumption).
  pose proof (estimate_bearing st f plat plon) as He.
  destruct (estimate st f plat plon) as [[h |] b]; simpl in He.
  - specialize (He h Hb eq_refl).
    destruct (reported_heading f); constructor; simpl; try assumption;
      try (intros h' E; injection E as <-; assumption).
    apply Forall_app. split; [assumption |].
    constructor; [apply radians_bearing; assumption | constructor].
  - constructor; simpl; [discriminate | assumption].
Qed.

Lemma bearings_run (st : state) (fs : list Fix) : bearings st -> bearings (run st fs).
Proof.
  revert st. induction fs as [| f fs IH]; intros st H; simpl; [assumption |].
  apply IH, bearings_process_fix, H.
Qed.

(** X2.  Every calculated heading that a session returns is an angle in
    [0, 2*PI): the radians of a bearing in [0, 360). *)
Theorem session_headings_in_range
  (parse : string -> parsed) (reads : list read) (ts cs rs : list R) :
  read_nmea_rmc parse reads = Ok (ts, cs, rs) ->
  Forall (fun c => 0 <= c < 2 * PI) cs.
Proof.
  rewrite session_fixes. destruct (fixes_of parse reads) as [fs | e]; [| discriminate].
  intros H. injection H as <- <- <-.
  apply (stored_are_bearings _ (bearings_run init_state fs bearings_init)).
Qed.

Lemma session_headings_in_range_witness :
  read_nmea_rmc session_parse short_session
  = Ok ([2], [radians (haversine_heading 0 0 0 1)], [radians 88])
  /\ Forall (fun c => 0 <= c < 2 * PI) [radians (haversine_heading 0 0 0 1)].
Proof.
  split; [exact short_session_result |].
  apply (session_headings_in_range session_parse short_session [2] _ [radians 88]).
  exact short_session_result.
Defined.

(** ** Which fixes are stored *)

(** A fix with a predecessor leaves a heading behind. *)
Lemma process_fix_sets_heading (st : state) (f : Fix) (plat plon : R) :
  consistent st ->
  prev_lat st = Some plat -> prev_lon st = Some plon ->
  first_heading_calculated (process_fix st f) = true
  /\ exists h, last_valid_heading (process_fix st f) = Some h.
Proof.
  intros Hc Hlat Hlon.
  rewrite process_fix_first, process_fix_heading, Hlat, Hlon.
  split; [apply estimate_first |].
  apply estimate_heading. apply (first_has_heading _ Hc).
Qed.

Lemma process_fix_stores (st : state) (f : Fix) (plat plon : R) :
  consistent st ->
  prev_lat st = Some plat -> prev_lon st = Some plon ->
  timestamps (process_fix st f)
  = timestamps st ++ (if has_reported f then [timestamp f] else [])
  /\ reported_headings (process_fix st f)
     = reported_headings st
       ++ match reported_heading f with Some r => [radians r] | None => [] end.
Proof.
  intros Hc Hlat Hlon.
  destruct (process_fix_sets_heading st f plat plon Hc Hlat Hlon) as (_ & h & Hh).
  rewrite process_fix_heading, Hlat, Hlon in Hh.
  unfold process_fix, has_reported. rewrite Hlat, Hlon.
  destruct (estimate st f plat plon) as [[h' |] b]; simpl in Hh; [| discriminate].
  destruct (reported_heading f); simpl; rewrite ?app_nil_r; split; reflexivity.
Qed.

Lemma run_stores (st : state) (fs : list Fix) (plat plon : R) :
  consistent st ->
  prev_lat st = Some plat -> prev_lon st = Some plon ->
  timestamps (run st fs)
  = timestamps st ++ map timestamp (filter has_reported fs)
  /\ reported_headings (run st fs)
     = reported_headings st
       ++ flat_map (fun f => match reported_heading f with
                             | Some r => [radians r]
                             | None => []
                             end) fs.
Proof.
  revert st plat plon. induction fs as [| f fs IH]; intros st plat plon Hc Hlat Hlon.
  - simpl. rewrite !app_nil_r. split; reflexivity.
  - cbn [run fold_left]. change (fold_left process_fix fs (process_fix st f))
      with (run (process_fix st f) fs).
    destruct (IH (process_fix st f) (lat f) (lon f)) as [Ht Hr];
      [apply consistent_process_fix; assumption
      | apply process_fix_prev_lat | apply process_fix_prev_lon |].
    destruct (process_fix_stores st f plat plon Hc Hlat Hlon) as [Ht1 Hr1].
    rewrite Ht, Hr, Ht1, Hr1, <- !app_assoc. cbn [filter flat_map].
    destruct (has_reported f); split; reflexivity.
Qed.

(** X3.  The first fix of a session stores nothing; after it, every fix
    that reports a heading stores exactly one sample, with its own time
    and the radians of its reported heading, and no other fix stores
    anything. *)
Theorem samples_are_reporting_fixes (f1 : Fix) (rest : list Fix) :
  results (run init_state []) = ([], [], [])
  /\ results (run init_state [f1]) = ([], [], [])
  /\ timestamps (run init_state (f1 :: rest)) = map timestamp (filter has_reported rest)
  /\ reported_headings (run init_state (f1 :: rest))
     = flat_map (fun f => match reported_heading f with
                           | Some r => [radians r]
                           | None => []
                           end) rest
  /\ length (calculated_headings (run init_state (f1 :: rest)))
     = length (filter has_reported rest).
Proof.
  split; [reflexivity |]. split; [reflexivity |].
  change (run init_state (f1 :: rest)) with (run (process_fix init_state f1) rest).
  destruct (run_stores (process_fix init_state f1) rest (lat f1) (lon f1))
    as [Ht Hr];
    [apply consistent_process_fix, consistent_init | reflexivity | reflexivity |].
  pose proof (consistent_run (process_fix init_state f1) rest
                (consistent_process_fix _ f1 consistent_init)) as Hc.
  split; [exact Ht |]. split; [exact Hr |].
  rewrite (calculated_in_step _ Hc), Ht. apply length_map.
Qed.

Lemma tracking_after_two (fs : list Fix) :
  (2 <= length fs)%nat ->
  first_heading_calculated (run init_state fs) = true
  /\ exists h, last_valid_heading (run init_state fs) = Some h.
Proof.
  intros H. destruct fs as [| f1 [| f2 rest]]; [simpl in H; lia | simpl in H; lia |].
  clear H. change (f1 :: f2 :: rest) with ([f1; f2] ++ rest). rewrite run_app.
  assert (Hc : consistent (run init_state [f1; f2]))
    by (apply consistent_run, consistent_init).
  assert (H2 : first_heading_calculated (run init_state [f1; f2]) = true
               /\ exists h, last_valid_heading (run init_state [f1; f2]) = Some h)
    by (rewrite run_two; split; [reflexivity | eexists; reflexivity]).
  revert Hc H2. generalize (run init_state [f1; f2]) as st.
  induction rest as [| f rest IH]; intros st Hc H2; [exact H2 |].
  cbn [run fold_left]. apply IH; [apply consistent_process_fix; assumption |].
  destruct (first_has_prev st Hc (proj1 H2)) as (plat & plon & Hlat & Hlon).
  apply (process_fix_sets_heading st f plat plon); assumption.
Qed.

(** X4.  A heading exists exactly from the second fix of a session on: the
    flag is set, and [last_valid_heading] is not null, if and only if at
    least two fixes were processed. *)
Theorem heading_from_second_fix (fs : list Fix) :
  first_heading_calculated (run init_state fs) = (2 <=? length fs)%nat
  /\ ((exists h, last_valid_heading (run init_state fs) = Some h)
      <-> (2 <= length fs)%nat).
Proof.
  destruct (Nat.le_gt_cases 2 (length fs)) as [H | H].
  - destruct (tracking_after_two fs H) as [Hf Hh].
    rewrite Hf. apply Nat.leb_le in H. rewrite H.
    split; [reflexivity |]. apply Nat.leb_le in H. split; auto.
  - destruct fs as [| f1 [| f2 rest]]; simpl in H; try lia;
      (split; [reflexivity |]; split; [intros [h E]; discriminate | simpl; lia]).
Qed.

(** ** The smoothing window in general *)

Lemma deque_append_skipn {A : Type} (n : nat) (d : list A) (x : A) :
  (0 < n)%nat -> (length d <= n)%nat ->
  deque_append n d x = skipn (length (d ++ [x]) - n) (d ++ [x]).
Proof.
  intros Hn Hd. rewrite length_app. simpl.
  destruct (Nat.eq_dec (length d) n) as [E | E].
  - destruct d as [| y d]; [simpl in E; lia |].
    rewrite (deque_append_full n y d x E).
    replace (length (y :: d) + 1 - n)%nat with 1%nat by lia. reflexivity.
  - rewrite deque_append_room by lia.
    replace (length d + 1 - n)%nat with 0%nat by lia. reflexivity.
Qed.

Lemma deque_fold_skipn {A : Type} (n : nat) (l d : list A) :
  (0 < n)%nat -> (length d <= n)%nat ->
  fold_left (deque_append n) l d = skipn (length (d ++ l) - n) (d ++ l).
Proof.
  intros Hn. revert d. induction l as [| x l IH]; intros d Hd.
  - simpl. rewrite app_nil_r.
    replace (length d - n)%nat with 0%nat by lia. reflexivity.
  - cbn [fold_left]. rewrite IH by (apply deque_append_length; assumption).
    rewrite (deque_append_skipn n d x Hn Hd).
    replace (d ++ x :: l) with ((d ++ [x]) ++ l) by (rewrite <- app_assoc; reflexivity).
    set (e := d ++ [x]).
    assert (He : (length e = length d + 1)%nat) by (unfold e; rewrite length_app; reflexivity).
    rewrite !length_app, length_skipn.
    destruct (Nat.le_gt_cases (length e) n) as [Hle | Hgt].
    + replace (length e - n)%nat with 0%nat by lia. simpl. f_equal. lia.
    + assert (H : length e = S n) by lia.
      rewrite H. replace (S n - n)%nat with 1%nat by lia.
      replace (S n - 1 + length l - n)%nat with (length l) by lia.
      replace (S n + length l - n)%nat with (S (length l)) by lia.
      destruct e as [| y e]; [discriminate H |]. reflexivity.
Qed.

(** X5.  At every point of a session the window of positions and the
    buffer of speeds hold the positions and the speeds of the last five
    fixes processed (of all of them while there are fewer), oldest first. *)
Theorem window_is_last_five (fs : list Fix) :
  previous_fixes (run init_state fs)
  = skipn (length fs - 5) (map (fun f => (lat f, lon f)) fs)
  /\ speed_buffer (run init_state fs)
     = skipn (length fs - 5) (map speed_m_s fs).
Proof.
  rewrite run_previous_fixes, run_speed_buffer.
  rewrite !deque_fold_skipn by (simpl; lia).
  simpl. rewrite !length_map. split; reflexivity.
Qed.

(** ** Times and reported headings of a session *)

Lemma run_init_stores (fs : list Fix) :
  timestamps (run init_state fs) = map timestamp (filter has_reported (tl fs))
  /\ reported_headings (run init_state fs)
     = flat_map (fun f => match reported_heading f with
                           | Some r => [radians r]
                           | None => []
                           end) (tl fs).
Proof.
  destruct fs as [| f1 rest]; [split; reflexivity |].
  change (run init_state (f1 :: rest)) with (run (process_fix init_state f1) rest).
  apply (run_stores (process_fix init_state f1) rest (lat f1) (lon f1));
    [apply consistent_process_fix, consistent_init | reflexivity | reflexivity].
Qed.

Lemma fix_of_fields (parse : string -> parsed) (rd : read) (f : Fix) :
  fix_of parse rd = Some (Ok f) ->
  timestamp f = clock rd /\ forall r, reported_heading f = Some r -> r <> 0.
Proof.
  unfold fix_of. destruct (is_rmc (line rd)); [| discriminate].
  destruct (parse (line rd)) as [| msg]; [discriminate |].
  destruct (status msg =? "A")%string; [| discriminate].
  destruct (spd_over_grnd msg) as [knots |]; [| discriminate].
  intros H. injection H as <-. cbn [timestamp reported_heading]. split; [reflexivity |].
  intros r. unfold reported_of, truthy. destruct (true_course msg) as [c |]; [| discriminate].
  destruct (Req_dec_T c 0); [discriminate |]. intros H. injection H as <-. assumption.
Qed.

Lemma fixes_of_fields (parse : string -> parsed) (reads : list read) (fs : list Fix) :
  fixes_of parse reads = Ok fs ->
  Forall (fun f => (exists rd, In rd reads /\ timestamp f = clock rd)
                   /\ forall r, reported_heading f = Some r -> r <> 0) fs.
Proof.
  revert fs. induction reads as [| rd rest IH]; intros fs H; simpl in H.
  - injection H as <-. constructor.
  - destruct (fix_of parse rd) as [[f | e] |] eqn:E; [| discriminate |].
    + destruct (fixes_of parse rest) as [fs' |]; [| discriminate].
      injection H as <-. destruct (fix_of_fields parse rd f E) as [Ht Hr].
      constructor.
      * split; [exists rd; split; [left; reflexivity | exact Ht] | exact Hr].
      * eapply Forall_impl; [| apply IH; reflexivity].
        intros g [(r & Hin & Hg) Hz]. split; [| exact Hz].
        exists r. split; [right; exact Hin | exact Hg].
    + eapply Forall_impl; [| apply IH; exact H].
      intros g [(r & Hin & Hg) Hz]. split; [| exact Hz].
      exists r. split; [right; exact Hin | exact Hg].
Qed.

Lemma fixes_of_sorted (parse : string -> parsed) (reads : list read) (fs : list Fix) :
  StronglySorted (fun a b => clock a < clock b) reads ->
  fixes_of parse reads = Ok fs ->
  StronglySorted (fun f g => timestamp f < timestamp g) fs.
Proof.
  intros Hs. revert fs. induction Hs as [| rd rest Hs IH Hrd]; intros fs H; simpl in H.
  - injection H as <-. constructor.
  - destruct (fix_of parse rd) as [[f | e] |] eqn:E; [| discriminate | apply IH; exact H].
    destruct (fixes_of parse rest) as [fs' |] eqn:E'; [| discriminate].
    injection H as <-. constructor; [apply IH; reflexivity |].
    destruct (fix_of_fields parse rd f E) as [Ht _].
    eapply Forall_impl; [| apply (fixes_of_fields parse rest fs' E')].
    intros g [(r & Hin & Hg) _]. rewrite Ht, Hg.
    rewrite Forall_forall in Hrd. apply Hrd. exact Hin.
Qed.

Lemma sorted_filter_map (p : Fix -> bool) (fs : list Fix) :
  StronglySorted (fun f g => timestamp f < timestamp g) fs ->
  StronglySorted Rlt (map timestamp (filter p fs)).
Proof.
  induction 1 as [| f fs Hs IH Hf]; simpl; [constructor |].
  destruct (p f); [| exact IH]. simpl. constructor; [exact IH |].
  rewrite Forall_forall in *. intros t Ht. apply in_map_iff in Ht.
  destruct Ht as (g & <- & Hg). apply filter_In in Hg. apply Hf, Hg.
Qed.

(** X16.  When the clock increases from line to line, the timestamps that a
    session returns increase strictly. *)
Theorem session_timestamps_increase
  (parse : string -> parsed) (reads : list read) (ts cs rs : list R) :
  StronglySorted (fun a b => clock a < clock b) reads ->
  read_nmea_rmc parse reads = Ok (ts, cs, rs) ->
  StronglySorted Rlt ts.
Proof.
  intros Hs. rewrite session_fixes.
  destruct (fixes_of parse reads) as [fs | e] eqn:E; [| discriminate].
  intros H. injection H as <- <- <-.
  destruct (run_init_stores fs) as [-> _].
  apply sorted_filter_map.
  pose proof (fixes_of_sorted parse reads fs Hs E) as Hf.
  destruct fs as [| f1 rest]; [constructor |].
  apply StronglySorted_inv in Hf. apply Hf.
Qed.

Lemma session_timestamps_increase_witness :
  StronglySorted (fun a b => clock a < clock b) short_session
  /\ StronglySorted Rlt [2].
Proof.
  assert (H : StronglySorted (fun a b => clock a < clock b) short_session).
  { unfold short_session.
    repeat (apply SSorted_cons;
            [| repeat (apply Forall_cons; [cbn [clock]; lra |]); apply Forall_nil]).
    apply SSorted_nil. }
  split; [exact H |].
  apply (session_timestamps_increase session_parse short_session [2]
           [radians (haversine_heading 0 0 0 1)] [radians 88] H).
  exact short_session_result.
Defined.

(** X17.  A session never returns a reported heading of 0: a course of
    exactly 0 degrees is dropped with its fix, so every reported heading
    returned is the radians of a course that is not zero. *)
Theorem session_reports_no_zero
  (parse : string -> parsed) (reads : list read) (ts cs rs : list R) :
  read_nmea_rmc parse reads = Ok (ts, cs, rs) ->
  Forall (fun r => r <> 0) rs.
Proof.
  rewrite session_fixes.
  destruct (fixes_of parse reads) as [fs | e] eqn:E; [| discriminate].
  intros H. injection H as <- <- <-.
  destruct (run_init_stores fs) as [_ ->].
  pose proof (fixes_of_fields parse reads fs E) as Hf.
  assert (Ht : Forall (fun f => forall r, reported_heading f = Some r -> r <> 0) (tl fs)).
  { destruct fs as [| f1 rest]; [constructor |]. inversion Hf; subst.
    eapply Forall_impl; [| eassumption]. intros g [_ Hz]. exact Hz. }
  clear Hf E. induction Ht as [| f rest Hz _ IH]; [constructor |].
  cbn [flat_map]. apply Forall_app. split; [| exact IH].
  destruct (reported_heading f) as [r |]; [| constructor].
  constructor; [| constructor].
  specialize (Hz r eq_refl). unfold radians. pose proof PI_RGT_0.
  intros H0. apply Rmult_integral in H0. destruct H0 as [H0 | H0]; [contradiction |].
  unfold Rdiv in H0. apply Rmult_integral in H0.
  destruct H0 as [H0 | H0]; [lra |].
  assert (/ 180 <> 0) by (apply Rinv_neq_0_compat; lra). contradiction.
Qed.

Lemma session_reports_no_zero_witness :
  read_nmea_rmc session_parse short_session
  = Ok ([2], [radians (haversine_heading 0 0 0 1)], [radians 88])
  /\ Forall (fun r => r <> 0) [radians 88].
Proof.
  split; [exact short_session_result |].
  apply (session_reports_no_zero session_parse short_session [2]
           [radians (haversine_heading 0 0 0 1)]).
  exact short_session_result.
Defined.

(** ** The motion gate over a whole session *)

Ltac each_speed :=
  repeat (apply Forall_cons; [cbn [speed_m_s]; lra |]); apply Forall_nil.

Lemma low_speed_fix_holds (st : state) (f : Fix) (last : R) :
  consistent st ->
  first_heading_calculated st = true ->
  last_speed st = Some last ->
  0 <= last <= 0.2 ->
  Forall (fun s => s <= 0.2) (speed_buffer st) ->
  0 <= speed_m_s f <= 0.2 ->
  last_valid_heading (process_fix st f) = last_valid_heading st
  /\ first_heading_calculated (process_fix st f) = true
  /\ Forall (fun s => s <= 0.2) (speed_buffer (process_fix st f)).
Proof.
  intros Hc Hfirst Hlast Hl Hlow Hf.
  destruct (first_has_prev st Hc Hfirst) as (plat & plon & Hlat & Hlon).
  assert (Hlow' : Forall (fun s => s <= 0.2) (deque_append 5 (speed_buffer st) (speed_m_s f)))
    by (apply deque_append_Forall; [assumption | lra]).
  assert (Hm : motion st f = false).
  { apply motion_false.
    - rewrite Hlast. cbn [speed_diff]. apply Rabs_le. lra.
    - apply avg_speed_le; [apply deque_append_nonempty; lia | assumption]. }
  rewrite process_fix_heading, process_fix_first, process_fix_speed_buffer, Hlat, Hlon.
  unfold estimate. rewrite Hfirst, Hm. cbn [negb fst snd]. auto.
Qed.

(** X8.  In a session whose speeds all lie between 0 and 0.1 m/s, half the
    threshold of the gate, the heading is never recomputed: after any
    number of fixes it is still the bearing between the raw positions of
    the first two, wherever the later positions are. *)
Theorem slow_session_keeps_first_bearing (f1 f2 : Fix) (rest : list Fix) :
  Forall (fun f => 0 <= speed_m_s f <= 0.1) (f1 :: f2 :: rest) ->
  last_valid_heading (run init_state (f1 :: f2 :: rest))
  = Some (haversine_heading (lat f1) (lon f1) (lat f2) (lon f2)).
Proof.
  intros H. inversion H as [| ? ? H1 H']; subst. inversion H' as [| ? ? H2 Hrest]; subst.
  change (f1 :: f2 :: rest) with ([f1; f2] ++ rest). rewrite run_app.
  assert (Hc : consistent (run init_state [f1; f2]))
    by (apply consistent_run, consistent_init).
  assert (Hinv : first_heading_calculated (run init_state [f1; f2]) = true
                 /\ (exists last, last_speed (run init_state [f1; f2]) = Some last
                                  /\ 0 <= last <= 0.2)
                 /\ Forall (fun s => s <= 0.2) (speed_buffer (run init_state [f1; f2]))).
  { rewrite run_two. cbn. split; [reflexivity |]. split.
    - exists (speed_m_s f2). split; [reflexivity | lra].
    - each_speed. }
  assert (Hh : last_valid_heading (run init_state [f1; f2])
               = Some (haversine_heading (lat f1) (lon f1) (lat f2) (lon f2)))
    by (rewrite run_two; reflexivity).
  rewrite <- Hh. clear Hh H H'.
  revert Hc Hinv. generalize (run init_state [f1; f2]) as st.
  induction Hrest as [| f rest Hf _ IH]; intros st Hc (Hfirst & (last & Hlast & Hl) & Hlow).
  - reflexivity.
  - assert (Hf' : 0 <= speed_m_s f <= 0.2) by lra.
    destruct (low_speed_fix_holds st f last Hc Hfirst Hlast Hl Hlow Hf')
      as (Hh & Hfirst' & Hlow').
    cbn [run fold_left]. change (fold_left process_fix rest (process_fix st f))
      with (run (process_fix st f) rest).
    rewrite IH, Hh; [reflexivity | apply consistent_process_fix; assumption |].
    split; [assumption |]. split; [| assumption].
    exists (speed_m_s f). split; [apply process_fix_last_speed | lra].
Qed.

Lemma slow_session_keeps_first_bearing_witness :
  last_valid_heading
    (run init_state [mkFix 0 0 None 0 0; mkFix 0 1 None 0.1 1;
                     mkFix 5 7 (Some 10) 0.05 2; mkFix (-3) 2 None 0 3])
  = Some (haversine_heading 0 0 0 1).
Proof.
  apply (slow_session_keeps_first_bearing (mkFix 0 0 None 0 0) (mkFix 0 1 None 0.1 1)
           [mkFix 5 7 (Some 10) 0.05 2; mkFix (-3) 2 None 0 3]).
  each_speed.
Defined.

Lemma sum_ge_member (l : list R) (x : R) :
  Forall (fun s => 0 <= s) l -> In x l -> x <= sum l /\ 0 <= sum l.
Proof.
  induction 1 as [| y l Hy Hl IH]; intros Hin; [contradiction |].
  rewrite sum_cons.
  assert (H0 : 0 <= sum l).
  { clear IH Hin. induction Hl as [| z l Hz Hl IH]; [unfold sum; simpl; lra |].
    rewrite sum_cons. lra. }
  destruct Hin as [-> | Hin]; [lra |]. specialize (IH Hin). lra.
Qed.

Lemma deque_append_In {A : Type} (n : nat) (d : list A) (x : A) :
  (0 < n)%nat -> In x (deque_append n d x).
Proof.
  intros Hn. unfold deque_append.
  destruct (n <? length (d ++ [x]))%nat eqn:E.
  - apply Nat.ltb_lt in E. rewrite length_app in E. simpl in E.
    destruct d as [| y d]; [simpl in E; lia |].
    simpl. apply in_or_app. right. left. reflexivity.
  - apply in_or_app. right. left. reflexivity.
Qed.

Lemma run_speeds_nonneg (fs : list Fix) :
  Forall (fun f => 0 <= speed_m_s f) fs ->
  Forall (fun s => 0 <= s) (speed_buffer (run init_state fs)).
Proof.
  intros H. rewrite run_speed_buffer. simpl speed_buffer.
  assert (G : forall d, Forall (fun s => 0 <= s) d ->
                        Forall (fun s => 0 <= s)
                          (fold_left (deque_append 5) (map speed_m_s fs) d)).
  { induction H as [| f fs Hf _ IH]; intros d Hd; [exact Hd |].
    simpl. apply IH. apply deque_append_Forall; assumption. }
  apply G. constructor.
Qed.

(** X9.  When no speed of a session is negative, a fix faster than 1 m/s
    that comes after the first two always has its heading recomputed from
    the average position of the window, whatever the earlier speeds: it
    alone lifts the rolling average above 0.2 m/s. *)
Theorem fast_fix_recomputes (fs : list Fix) (f : Fix) :
  let st' := process_fix (run init_state fs) f in
  (2 <= length fs)%nat ->
  Forall (fun g => 0 <= speed_m_s g) fs ->
  1 < speed_m_s f ->
  last_valid_heading st'
  = Some (haversine_heading (avg_lat (previous_fixes st'))
            (avg_lon (previous_fixes st')) (lat f) (lon f)).
Proof.
  intros st' Hlen Hpos Hfast.
  set (st := run init_state fs) in *.
  pose proof (consistent_run init_state fs consistent_init) as Hc. fold st in Hc.
  assert (Hfirst : first_heading_calculated st = true)
    by (apply tracking_after_two; assumption).
  destruct (first_has_prev st Hc Hfirst) as (plat & plon & Hlat & Hlon).
  assert (Hm : motion st f = true).
  { apply motion_true. right.
    set (b := deque_append 5 (speed_buffer st) (speed_m_s f)).
    assert (Hb : Forall (fun s => 0 <= s) b).
    { apply deque_append_Forall; [apply run_speeds_nonneg; assumption | lra]. }
    assert (Hin : In (speed_m_s f) b) by (apply deque_append_In; lia).
    destruct (sum_ge_member b (speed_m_s f) Hb Hin) as [Hsum _].
    assert (Hlen5 : (length b <= 5)%nat)
      by (apply deque_append_length, (speeds_bounded _ Hc)).
    assert (Hlen0 : (0 < length b)%nat) by (apply deque_append_nonempty; lia).
    unfold avg_speed, len.
    assert (H5 : INR (length b) <= 5) by (apply le_INR in Hlen5; simpl in Hlen5; lra).
    assert (H0 : 0 < INR (length b)) by (apply lt_0_INR; assumption).
    apply Rlt_gt. apply Rmult_lt_reg_r with (INR (length b)); [assumption |].
    replace (sum b / INR (length b) * INR (length b)) with (sum b) by (field; lra).
    nra. }
  unfold st'. rewrite process_fix_heading, process_fix_previous_fixes, Hlat, Hlon.
  unfold estimate. rewrite Hfirst, Hm. reflexivity.
Qed.

Lemma fast_fix_recomputes_witness :
  last_valid_heading (process_fix (run init_state silent_bootstrap) fast_fix)
  = Some (haversine_heading
            (avg_lat (previous_fixes (process_fix (run init_state silent_bootstrap) fast_fix)))
            (avg_lon (previous_fixes (process_fix (run init_state silent_bootstrap) fast_fix)))
            (lat fast_fix) (lon fast_fix)).
Proof.
  apply (fast_fix_recomputes silent_bootstrap fast_fix).
  - simpl. lia.
  - unfold silent_bootstrap. each_speed.
  - cbn [fast_fix speed_m_s]. lra.
Defined.

(** * Further properties of the bearing *)

Lemma atan2_south (x : R) : x < 0 -> atan2 0 x = PI.
Proof.
  intros H. unfold atan2.
  destruct (Rlt_dec 0 x); [lra |].
  destruct (Rlt_dec x 0); [| contradiction].
  destruct (Rle_dec 0 0); [| lra].
  unfold Rdiv. rewrite Rmult_0_l, atan_0. ring.
Qed.

Lemma atan2_origin : atan2 0 0 = 0.
Proof.
  unfold atan2. destruct (Rlt_dec 0 0); [lra |]. reflexivity.
Qed.

Lemma atan2_north_east (y x : R) : 0 < y -> 0 < atan2 y x < PI.
Proof.
  intros Hy. pose proof PI_RGT_0 as HP. unfold atan2.
  destruct (Rlt_dec 0 x) as [Hx | Hx].
  - assert (0 < y / x) by (apply Rdiv_lt_0_compat; assumption).
    pose proof (atan_bound (y / x)).
    assert (0 < atan (y / x)) by (rewrite <- atan_0; apply atan_increasing; assumption).
    lra.
  - destruct (Rlt_dec x 0) as [Hx' | Hx'].
    + destruct (Rle_dec 0 y); [| lra].
      assert (y / x < 0).
      { unfold Rdiv. assert (/ x < 0) by (apply Rinv_lt_0_compat; assumption). nra. }
      pose proof (atan_bound (y / x)).
      assert (atan (y / x) < 0) by (rewrite <- atan_0; apply atan_increasing; assumption).
      lra.
    + destruct (Rlt_dec 0 y); lra.
Qed.

Lemma cos_radians_pos (x : R) : - 90 < x < 90 -> 0 < cos (radians x).
Proof.
  intros [Hlo Hhi]. pose proof PI_RGT_0 as HP.
  assert (Hk : 0 < PI / 180) by (apply Rdiv_lt_0_compat; lra).
  assert (H90 : 90 * (PI / 180) = PI / 2) by field.
  apply cos_gt_0; unfold radians.
  - rewrite <- H90.
    replace (- (90 * (PI / 180))) with (- 90 * (PI / 180)) by ring.
    apply Rmult_lt_compat_r; assumption.
  - rewrite <- H90. apply Rmult_lt_compat_r; assumption.
Qed.

Lemma degrees_bounds (a : R) :
  (0 < a -> 0 < degrees a) /\ (a < PI -> degrees a < 180) /\ degrees PI = 180.
Proof.
  pose proof PI_RGT_0 as HP. unfold degrees.
  assert (Hk : 0 < 180 / PI) by (apply Rdiv_lt_0_compat; lra).
  assert (Hpi : PI * (180 / PI) = 180) by (field; lra).
  repeat split; [intros H | intros H | exact Hpi].
  - apply Rmult_lt_0_compat; assumption.
  - apply Rlt_le_trans with (PI * (180 / PI));
      [apply Rmult_lt_compat_r; assumption | lra].
Qed.

Lemma haversine_heading_south (lat1 lat2 lon0 : R) :
  0 < lat1 - lat2 < 180 -> haversine_heading lat1 lon0 lat2 lon0 = 180.
Proof.
  intros [Hlo Hhi]. unfold haversine_heading. cbv zeta.
  replace (radians lon0 - radians lon0) with 0 by ring.
  rewrite sin_0, cos_0, Rmult_0_l.
  replace (cos (radians lat1) * sin (radians lat2)
           - sin (radians lat1) * cos (radians lat2) * 1)
    with (- sin (radians (lat1 - lat2))).
  2:{ replace (radians (lat1 - lat2)) with (radians lat1 - radians lat2)
        by (unfold radians; ring).
      rewrite sin_minus. ring. }
  assert (Hs : 0 < sin (radians (lat1 - lat2)))
    by (apply sin_gt_0; [apply radians_pos | apply radians_lt_PI]; assumption).
  rewrite atan2_south by lra.
  destruct (degrees_bounds PI) as (_ & _ & Hg).
  rewrite Hg, (float_rem_shift 1) by lra. lra.
Qed.

(** X10.  Along a meridian the bearing is exact: 0 degrees to a point due
    north, 180 degrees to a point due south, for any latitudes less than
    half a turn apart; and the bearing from a point to itself is 0. *)
Theorem meridian_bearings (lat1 lat2 lon0 : R) :
  (0 < lat2 - lat1 < 180 -> haversine_heading lat1 lon0 lat2 lon0 = 0)
  /\ (0 < lat1 - lat2 < 180 -> haversine_heading lat1 lon0 lat2 lon0 = 180)
  /\ haversine_heading lat1 lon0 lat1 lon0 = 0.
Proof.
  split; [apply haversine_heading_north |].
  split; [apply haversine_heading_south |].
  unfold haversine_heading. cbv zeta.
  replace (radians lon0 - radians lon0) with 0 by ring.
  rewrite sin_0, cos_0, Rmult_0_l.
  replace (cos (radians lat1) * sin (radians lat1)
           - sin (radians lat1) * cos (radians lat1) * 1) with 0 by ring.
  rewrite atan2_origin.
  replace (degrees 0) with 0 by (unfold degrees; ring).
  rewrite (float_rem_shift 1) by lra. lra.
Qed.

Lemma meridian_bearings_witness :
  haversine_heading 0 0 1 0 = 0 /\ haversine_heading 1 0 0 0 = 180.
Proof.
  split.
  - apply (meridian_bearings 0 1 0). lra.
  - apply (meridian_bearings 1 0 0). lra.
Defined.

(** X11.  Along the equator the bearing is exact: 90 degrees to a point to
    the east, 270 degrees to a point to the west, for any longitudes less
    than half a turn apart. *)
Theorem equator_bearings (lon1 lon2 : R) :
  (0 < lon2 - lon1 < 180 -> haversine_heading 0 lon1 0 lon2 = 90)
  /\ (0 < lon1 - lon2 < 180 -> haversine_heading 0 lon1 0 lon2 = 270).
Proof.
  split; [apply haversine_heading_east | apply haversine_heading_west].
Qed.

Lemma equator_bearings_witness :
  haversine_heading 0 0 0 1 = 90 /\ haversine_heading 0 1 0 0 = 270.
Proof.
  split.
  - apply (equator_bearings 0 1). lra.
  - apply (equator_bearings 1 0). lra.
Defined.

(** X12.  The bearing tells east from west: to a point between the poles
    that lies less than half a turn to the east it is strictly between 0
    and 180 degrees, and to one that lies less than half a turn to the
    west it is strictly between 180 and 360 degrees. *)
Theorem bearing_east_or_west (lat1 lon1 lat2 lon2 : R) :
  - 90 < lat2 < 90 ->
  (0 < lon2 - lon1 < 180 -> 0 < haversine_heading lat1 lon1 lat2 lon2 < 180)
  /\ (0 < lon1 - lon2 < 180 -> 180 < haversine_heading lat1 lon1 lat2 lon2 < 360).
Proof.
  intros Hlat. pose proof (cos_radians_pos lat2 Hlat) as Hc.
  split; intros [Hlo Hhi].
  - assert (Hs : 0 < sin (radians lon2 - radians lon1)).
    { replace (radians lon2 - radians lon1) with (radians (lon2 - lon1))
        by (unfold radians; ring).
      apply sin_gt_0; [apply radians_pos | apply radians_lt_PI]; assumption. }
    assert (Hx : 0 < sin (radians lon2 - radians lon1) * cos (radians lat2))
      by (apply Rmult_lt_0_compat; assumption).
    unfold haversine_heading. cbv zeta.
    match goal with |- context [atan2 ?a ?b] =>
      pose proof (atan2_north_east a b Hx) as [Ha Hb];
      set (azimuth := atan2 a b) in *
    end.
    destruct (degrees_bounds azimuth) as (Hd0 & Hd1 & _).
    specialize (Hd0 Ha). specialize (Hd1 Hb).
    rewrite (float_rem_shift 1) by lra. lra.
  - apply haversine_heading_westward.
    replace (radians lon2 - radians lon1) with (- radians (lon1 - lon2))
      by (unfold radians; ring).
    rewrite sin_neg.
    assert (0 < sin (radians (lon1 - lon2)))
      by (apply sin_gt_0; [apply radians_pos | apply radians_lt_PI]; assumption).
    nra.
Qed.

Lemma bearing_east_or_west_witness :
  0 < haversine_heading 10 20 (- 30) 60 < 180
  /\ 180 < haversine_heading 10 20 (- 30) (- 60) < 360.
Proof.
  split.
  - apply (bearing_east_or_west 10 20 (- 30) 60); lra.
  - apply (bearing_east_or_west 10 20 (- 30) (- 60)); lra.
Defined.

(** * The port menu and the plot *)

Lemma getitem_nth {A : Type} (l : list A) (i : nat) :
  (i < length l)%nat -> getitem l (Z.of_nat i) = nth_error l i.
Proof.
  intros H. unfold getitem.
  assert (E1 : (Z.of_nat i <? 0)%Z = false) by (apply Z.ltb_ge; lia).
  assert (E2 : (Z.of_nat (length l) <=? Z.of_nat i)%Z = false) by (apply Z.leb_gt; lia).
  cbv zeta. rewrite E1. cbv iota. rewrite E1, E2, Znat.Nat2Z.id. reflexivity.
Qed.

Lemma combine_seq_nth {A : Type} (l : list A) (a i : nat) (x : A) :
  In (i, x) (combine (seq a (length l)) l) ->
  (a <= i < a + length l)%nat /\ nth_error l (i - a) = Some x.
Proof.
  revert a. induction l as [| y l IH]; intros a H; simpl in H; [contradiction |].
  destruct H as [H | H].
  - injection H as <- <-. simpl. rewrite Nat.sub_diag. split; [lia | reflexivity].
  - apply IH in H. destruct H as [Hi Hn]. simpl. split; [lia |].
    replace (i - a)%nat with (S (i - S a)) by lia. exact Hn.
Qed.

(** X13.  The number printed before a port selects that port: typing the
    number of any line of the menu makes [ports[port_index]] the port of
    that line. *)
Theorem menu_number_selects_port (ports : list string) (k : Z) (port : string) :
  In (k, port) (menu ports) -> select_port ports k = Some port.
Proof.
  unfold menu, select_port. intros H. apply in_map_iff in H.
  destruct H as ([i p] & E & H). simpl in E. injection E as <- <-.
  apply combine_seq_nth in H. destruct H as [Hi Hn].
  replace (Z.of_nat i + 1 - 1)%Z with (Z.of_nat i) by lia.
  rewrite getitem_nth by lia. rewrite Nat.sub_0_r in Hn. exact Hn.
Qed.

Lemma menu_number_selects_port_witness :
  select_port ["COM3"; "COM7"]%string 2 = Some "COM7"%string.
Proof.
  apply (menu_number_selects_port ["COM3"; "COM7"]%string 2 "COM7"%string).
  right. left. reflexivity.
Defined.

(** X14.  Numbers off the menu: with n ports listed, typing 0 selects the
    last port and a number from 1 - n to 0 selects from the end, because
    the index is negative; only a number above n or below 1 - n is an
    [IndexError]. *)
Theorem off_menu_numbers (ports : list string) (k : Z) :
  let n := Z.of_nat (length ports) in
  (ports <> [] -> select_port ports 0 = Some (last ports ""%string))
  /\ ((1 - n <= k <= 0)%Z ->
      select_port ports k = nth_error ports (Z.to_nat (k - 1 + n)))
  /\ ((n < k)%Z \/ (k < 1 - n)%Z -> select_port ports k = None).
Proof.
  intros n. unfold select_port, getitem. fold n.
  assert (Hn : (0 <= n)%Z) by (unfold n; lia).
  repeat split.
  - intros Hne.
    assert (Hpos : (0 < n)%Z) by (unfold n; destruct ports; [contradiction | simpl; lia]).
    replace (0 - 1 <? 0)%Z with true by (symmetry; apply Z.ltb_lt; lia).
    replace (0 - 1 + n <? 0)%Z with false by (symmetry; apply Z.ltb_ge; lia).
    replace (n <=? 0 - 1 + n)%Z with false by (symmetry; apply Z.leb_gt; lia).
    simpl orb. cbv iota.
    replace (Z.to_nat (0 - 1 + n)) with (length ports - 1)%nat by (unfold n; lia).
    clear - Hne. induction ports as [| p ports IH]; [contradiction |].
    destruct ports as [| q ports]; [reflexivity |].
    specialize (IH ltac:(discriminate)). simpl in *.
    rewrite Nat.sub_0_r in IH. exact IH.
  - intros [Hlo Hhi].
    replace (k - 1 <? 0)%Z with true by (symmetry; apply Z.ltb_lt; lia).
    replace (k - 1 + n <? 0)%Z with false by (symmetry; apply Z.ltb_ge; lia).
    replace (n <=? k - 1 + n)%Z with false by (symmetry; apply Z.leb_gt; lia).
    reflexivity.
  - intros [Hhi | Hlo].
    + replace (k - 1 <? 0)%Z with false by (symmetry; apply Z.ltb_ge; lia).
      replace (n <=? k - 1)%Z with true by (symmetry; apply Z.leb_le; lia).
      rewrite orb_true_r. reflexivity.
    + replace (k - 1 <? 0)%Z with true by (symmetry; apply Z.ltb_lt; lia).
      replace (k - 1 + n <? 0)%Z with true by (symmetry; apply Z.ltb_lt; lia).
      reflexivity.
Qed.

Lemma off_menu_numbers_witness :
  select_port ["COM3"; "COM7"]%string 0 = Some "COM7"%string
  /\ select_port ["COM3"; "COM7"]%string (- 1) = Some "COM3"%string
  /\ select_port ["COM3"; "COM7"]%string 3 = None
  /\ select_port ["COM3"; "COM7"]%string (- 2) = None.
Proof.
  split; [| split; [| split]].
  - apply (proj1 (off_menu_numbers ["COM3"; "COM7"]%string 0)). discriminate.
  - apply (proj1 (proj2 (off_menu_numbers ["COM3"; "COM7"]%string (- 1)))).
    simpl. lia.
  - apply (proj2 (proj2 (off_menu_numbers ["COM3"; "COM7"]%string 3))).
    left. simpl. lia.
  - apply (proj2 (proj2 (off_menu_numbers ["COM3"; "COM7"]%string (- 2)))).
    right. simpl. lia.
Defined.




